(** * dans-gdal-scripts: masks, erosion and ring bookkeeping

    A shallow embedding of [src/mask.cc] and [src/polygon.h] and the
    properties the specification states about them.

    Conventions.
    - C++ [int] and [size_t] values are [Z]; every loop below runs over
      coordinates between 0 and the raster size, which GDAL keeps within
      [int], so no addition in the embedded code leaves the machine range.
    - [std::vector<uint8_t>] is a [list Z] of bytes, [bool[]] a [list bool];
      writes by index are stdpp's [<[i:=v]>].
    - [double] is binary64 ([PrimFloat.float]) wherever the code computes
      with it: the centroid of [mask.cc] and the area of a ring.  Bounding
      boxes and the relations of rings only compare coordinates, and are
      stated over exact rationals: the specification requires finite
      coordinates, and on finite values the comparisons of [polygon.h] are
      exact.
    - GDAL, [NdvDef] and [fatal_error] are external: a data set and a
      no-data predicate are records of what the code asks of them, and
      [fatal_error] is an outcome of its own.  The debug plot and the
      progress reports are observers and are left out. *)

From Stdlib Require Import ZArith QArith Lqa Floats Uint63 Lia List String.
From stdpp Require Import base list.
Import ListNotations.

#[local] Open Scope Z_scope.

(** ** polygon.h: Vertex *)

(** [struct Vertex { double x, y; }].  The coordinate type is a parameter:
    [float] for values the code computes, [Q] for the exact geometry. *)
Record Vertex (D : Type) : Type := mkVertex { vx : D; vy : D }.
Arguments mkVertex {D} _ _.
Arguments vx {D} _.
Arguments vy {D} _.

(** ** polygon.h: Bbox, Ring, Mpoly *)

(** [a < b] and [a > b] on coordinates. *)
Definition Qltb (a b : Q) : bool := negb (Qle_bool b a).
Definition Qgtb (a b : Q) : bool := Qltb b a.

(** [enum RingRelation] *)
Inductive RingRelation : Type :=
  | RINGREL_CONTAINS
  | RINGREL_CONTAINED_BY
  | RINGREL_CROSSES
  | RINGREL_DISJOINT.

(** [class Bbox { double min_x, max_x, min_y, max_y; bool empty; }] *)
Record Bbox : Type := mkBbox {
  min_x : Q; max_x : Q; min_y : Q; max_y : Q; empty : bool
}.

(** [Bbox::Bbox()] *)
Definition Bbox_new : Bbox := mkBbox 0 0 0 0 true.

(** [void Bbox::expand(const Vertex &v)] *)
Definition expand (bb : Bbox) (v : Vertex Q) : Bbox :=
  if empty bb then
    mkBbox (vx v) (vx v) (vy v) (vy v) false
  else
    mkBbox (if Qltb (vx v) (min_x bb) then vx v else min_x bb)
           (if Qgtb (vx v) (max_x bb) then vx v else max_x bb)
           (if Qltb (vy v) (min_y bb) then vy v else min_y bb)
           (if Qgtb (vy v) (max_y bb) then vy v else max_y bb)
           false.

(** [static inline bool is_disjoint(const Bbox &bb1, const Bbox &bb2)] *)
Definition is_disjoint (bb1 bb2 : Bbox) : bool :=
  empty bb1 || empty bb2 ||
  Qgtb (min_x bb1) (max_x bb2) ||
  Qgtb (min_y bb1) (max_y bb2) ||
  Qgtb (min_x bb2) (max_x bb1) ||
  Qgtb (min_y bb2) (max_y bb1).

(** [class Ring { std::vector<Vertex> pts; bool is_hole; int parent_id; }] *)
Record Ring : Type := mkRing {
  pts : list (Vertex Q);
  is_hole : bool;
  parent_id : Z
}.

(** [Ring::Ring()] *)
Definition Ring_new : Ring := mkRing [] false (-1).

(** [void Ring::reverse() { std::reverse(pts.begin(), pts.end()); }] *)
Definition reverse (r : Ring) : Ring := mkRing (rev (pts r)) (is_hole r) (parent_id r).

(** [Ring Ring::copyMetadata() const] *)
Definition copyMetadata (r : Ring) : Ring := mkRing [] (is_hole r) (parent_id r).

(** [class Mpoly { std::vector<Ring> rings; }] *)
Record Mpoly : Type := mkMpoly { rings : list Ring }.

(** ** polygon.cc, which is not among the sources *)

(** Modelled from the spec: [Ring::getBbox] is defined in [polygon.cc].
    Section 4.3: it folds [expand] over all points. *)
Definition getBbox (r : Ring) : Bbox := fold_left expand (pts r) Bbox_new.

(** The edges of the closed ring. *)
Definition ring_edges (r : Ring) : list (Vertex Q * Vertex Q) :=
  match pts r with
  | [] => []
  | p :: rest => combine (pts r) (rest ++ [p])
  end.

(** Modelled from the spec: [ring_ring_relation] is defined in
    [polygon.cc].  Section 4.3 gives its three steps.  The segment test
    [line_intersects_line] and the point test [Ring::contains], both
    declared in [polygon.h] and defined in [polygon.cc], are arguments. *)
Definition ring_ring_relation
    (line_intersects_line : Vertex Q -> Vertex Q -> Vertex Q -> Vertex Q -> bool -> bool)
    (contains : Ring -> Vertex Q -> bool)
    (r1 r2 : Ring) : RingRelation :=
  if is_disjoint (getBbox r1) (getBbox r2) then RINGREL_DISJOINT
  else if existsb (fun e1 =>
            existsb (fun e2 =>
              line_intersects_line (fst e1) (snd e1) (fst e2) (snd e2) false)
              (ring_edges r2))
            (ring_edges r1)
  then RINGREL_CROSSES
  else
    match pts r1, pts r2 with
    | p1 :: _, p2 :: _ =>
        if contains r2 p1 then RINGREL_CONTAINED_BY
        else if contains r1 p2 then RINGREL_CONTAINS
        else RINGREL_DISJOINT
    | _, _ => RINGREL_DISJOINT
    end.

(** Two extents [lo1, hi1] and [lo2, hi2] overlap. *)
Definition extents_overlap (lo1 hi1 lo2 hi2 : Q) : Prop :=
  (lo1 <= hi2)%Q /\ (lo2 <= hi1)%Q.

(** Two boxes are disjoint: one is empty, or their extents fail to overlap
    on some axis. *)
Definition boxes_disjoint (bb1 bb2 : Bbox) : Prop :=
  empty bb1 = true \/ empty bb2 = true \/
  ~ extents_overlap (min_x bb1) (max_x bb1) (min_x bb2) (max_x bb2) \/
  ~ extents_overlap (min_y bb1) (max_y bb1) (min_y bb2) (max_y bb2).

(** A point lies in a box. *)
Definition in_box (bb : Bbox) (v : Vertex Q) : Prop :=
  empty bb = false /\
  (min_x bb <= vx v)%Q /\ (vx v <= max_x bb)%Q /\
  (min_y bb <= vy v)%Q /\ (vy v <= max_y bb)%Q.

(** Modelled from the spec: [Mpoly::deleteRing] is defined in [polygon.cc].
    Section 4.3: it removes the ring at [idx] and renumbers every remaining
    hole; a hole with [parent_id > idx] has it decremented by 1, and a hole
    with [parent_id == idx] is handled by an explicit policy.  The spec
    leaves the policy open (delete the hole too, or reassign it); here the
    hole is reassigned to no parent, the state of a fresh [Ring], so that
    exactly one ring leaves the collection, as the renumbering by 1
    presupposes. *)
Definition renumber (idx : Z) (r : Ring) : Ring :=
  if is_hole r then
    if parent_id r >? idx then mkRing (pts r) true (parent_id r - 1)
    else if parent_id r =? idx then mkRing (pts r) false (-1)
    else r
  else r.

Definition deleteRing (mp : Mpoly) (idx : Z) : Mpoly :=
  mkMpoly (map (renumber idx) (delete (Z.to_nat idx) (rings mp))).

(** The position a ring of the result had before the deletion. *)
Definition position_before (idx : Z) (j : nat) : nat :=
  if Z.of_nat j <? idx then j else S j.

(** Example rings. *)
Definition vertexQ (x y : Z) : Vertex Q := mkVertex (inject_Z x) (inject_Z y).

Definition unit_square : Ring :=
  mkRing [vertexQ 0 0; vertexQ 1 0; vertexQ 1 1; vertexQ 0 1] false (-1).

Definition far_square : Ring :=
  mkRing [vertexQ 5 5; vertexQ 6 5; vertexQ 6 6; vertexQ 5 6] false (-1).

Definition example_mpoly : Mpoly :=
  mkMpoly [ mkRing [vertexQ 0 0] false (-1);
            mkRing [vertexQ 1 1] false (-1);
            mkRing [vertexQ 2 2] true 0;
            mkRing [vertexQ 3 3] false (-1);
            mkRing [vertexQ 4 4] true 3;
            mkRing [vertexQ 5 5] true 1 ].

(** ** polygon.h and polygon.cc: the area of a ring *)

(** A result that can be the degenerate-input error of section 7 instead
    of a value. *)
Inductive Checked (A : Type) : Type :=
  | Value (a : A)
  | DegenerateInput.
Arguments Value {A} _.
Arguments DegenerateInput {A}.

(** The area multiplies and adds coordinates, and a product or a sum of
    doubles rounds.  It is therefore computed on the ring as the header
    declares it, with [double] coordinates: [Double.Ring] and
    [Double.reverse] are [Ring] and [reverse] above with [float] in the
    place of [Q]. *)
Module Double.

(** [class Ring { std::vector<Vertex> pts; bool is_hole; int parent_id; }] *)
Record Ring : Type := mkRing {
  pts : list (Vertex float);
  is_hole : bool;
  parent_id : Z
}.

(** [void Ring::reverse() { std::reverse(pts.begin(), pts.end()); }] *)
Definition reverse (r : Ring) : Ring := mkRing (rev (pts r)) (is_hole r) (parent_id r).

(** The cross product of two position vectors, in doubles: two rounded
    products and their rounded difference. *)
Definition cross (p q : Vertex float) : float := (vx p * vy q - vx q * vy p)%float.

(** The cross products of the consecutive edges along a path of vertices. *)
Fixpoint path_products (l : list (Vertex float)) : list float :=
  match l with
  | p :: (q :: _) as rest => cross p q :: path_products rest
  | _ => []
  end.

(** The cross products of the edges of the closed ring, in ring order: the
    edge from the last point back to the first comes last. *)
Definition cross_products (l : list (Vertex float)) : list float :=
  match l with
  | [] => []
  | p :: _ => path_products (l ++ [p])
  end.

(** The shoelace sum: an accumulator that starts at 0 and adds the cross
    products one by one, rounding at every addition. *)
Definition shoelace (l : list (Vertex float)) : float :=
  fold_left PrimFloat.add (cross_products l) 0%float.

(** Modelled from the spec: [Ring::orientedArea] is defined in
    [polygon.cc].  Section 4.3: the shoelace sum of cross products of
    consecutive edges, divided by two, over the implicitly closed ring.
    Section 7: the area of a ring with fewer than 3 points is a
    degenerate-input error.  The spec does not say in which order the sum
    is taken; here it follows the ring, the closing edge last. *)
Definition orientedArea (r : Ring) : Checked float :=
  if (length (pts r) <? 3)%nat then DegenerateInput
  else Value (shoelace (pts r) / 2)%float.

(** Modelled from the spec: [Ring::area] is defined in [polygon.cc].
    Section 4.3: the absolute value of the oriented area; section 7: an
    error for a ring with fewer than 3 points. *)
Definition area (r : Ring) : Checked float :=
  match orientedArea r with
  | Value a => Value (abs a)
  | DegenerateInput => DegenerateInput
  end.

(** Modelled from the spec: [Ring::isCCW] is defined in [polygon.cc].
    Section 4.3: whether the oriented area is positive. *)
Definition isCCW (r : Ring) : Checked bool :=
  match orientedArea r with
  | Value a => Value (0 <? a)%float
  | DegenerateInput => DegenerateInput
  end.








(** Example rings.  [skew_quad] has the vertices (0, 0.1), (2.6, 0.2),
    (4.7, 2.9), (0.3, 4.2) and [skew_triangle] the vertices (0.1, 0.2),
    (2.6, 0.3), (0.7, 4.9), each coordinate the double nearest to the
    decimal. *)
Definition unit_square : Ring :=
  mkRing [mkVertex 0 0; mkVertex 1 0; mkVertex 1 1; mkVertex 0 1]%float false (-1).




End Double.




(** ** mask.h: BitGrid *)

(** [class BitGrid { int w, h; std::vector<uint8_t> grid; }] *)
Record BitGrid : Type := mkBitGrid { w : Z; h : Z; grid : list Z }.

(** Number of bytes that hold [w*h] bits. *)
Definition arrlen (w h : Z) : Z := (w * h + 7) / 8.

(** Modelled from the spec: [mask.h] is not among the sources, so the
    constructor, [get], [set] and [zero] of [BitGrid] follow section 4.1:
    a dense [w] by [h] grid of booleans in packed storage, row-major, one
    bit per pixel, created zeroed.  A read outside the grid yields [false]
    (erosion treats every neighbor outside the grid as unset and reads row
    [h] to find it) and a write outside the grid changes nothing. *)
Definition BitGrid_new (w h : Z) : BitGrid :=
  mkBitGrid w h (repeat 0 (Z.to_nat (arrlen w h))).

Definition in_grid (g : BitGrid) (x y : Z) : bool :=
  (0 <=? x) && (0 <=? y) && (x <? w g) && (y <? h g).

(** Modelled from the spec: see [BitGrid_new].  Pixel [(x,y)] is bit
    [p & 7] of byte [p / 8], where [p = w*y + x]. *)
Definition get (g : BitGrid) (x y : Z) : bool :=
  if in_grid g x y then
    let p := w g * y + x in
    Z.testbit (nth (Z.to_nat (p / 8)) (grid g) 0) (Z.land p 7)
  else false.

(** Modelled from the spec: see [BitGrid_new].  The bit of the pixel is
    set with an or, cleared with an and of the complement. *)
Definition set (g : BitGrid) (x y : Z) (val : bool) : BitGrid :=
  if in_grid g x y then
    let p := w g * y + x in
    let i := Z.to_nat (p / 8) in
    let b := nth i (grid g) 0 in
    let b' := if val then Z.lor b (Z.shiftl 1 (Z.land p 7))
              else Z.land b (Z.lnot (Z.shiftl 1 (Z.land p 7))) in
    mkBitGrid (w g) (h g) (<[i := b']> (grid g))
  else g.

(** Modelled from the spec: see [BitGrid_new].  [zero()] clears every byte. *)
Definition zero (g : BitGrid) : BitGrid :=
  mkBitGrid (w g) (h g) (map (fun _ => 0) (grid g)).

(** The storage invariant the constructor establishes. *)
Definition wf_grid (g : BitGrid) : Prop :=
  length (grid g) = Z.to_nat (arrlen (w g) (h g)).

(** ** mask.cc: BitGrid::erode *)

(** [for(int i=0; i<n; i++) body(i)], and the same loop over [size_t]. *)
Definition for_int {A : Type} (n : Z) (body : A -> Z -> A) (a : A) : A :=
  fold_left (fun s i => body s (Z.of_nat i)) (seq 0 (Z.to_nat n)) a.

(** [new bool[w]]: the cells are unspecified until written; every cell is
    written before it is read. *)
Definition new_bool_array (n : Z) : list bool := repeat false (Z.to_nat n).

(** [row[i] = v] *)
Definition store (row : list bool) (i : Z) (v : bool) : list bool :=
  <[Z.to_nat i := v]> row.

(** [row[i]] *)
Definition load (row : list bool) (i : Z) : bool := nth (Z.to_nat i) row false.

(** The three row buffers. *)
Record Rows : Type := mkRows { rowu : list bool; rowm : list bool; rowl : list bool }.

(** The six carried stencil cells: first letter the row (upper, middle,
    lower), second letter the column (left, middle). *)
Record Stencil : Type :=
  mkStencil { s_ul : bool; s_um : bool; s_ml : bool; s_mm : bool; s_ll : bool; s_lm : bool }.

(** The test of lines 284-287: some two consecutive neighbors are filled. *)
Definition two_consecutive (ul um ur mr lr lm ll ml : bool) : bool :=
  (ul && um) || (um && ur) || (ur && mr) || (mr && lr) ||
  (lr && lm) || (lm && ll) || (ll && ml) || (ml && ul).

(** Body of [for(int x=0; x<w; x++)], lines 279-290. *)
Definition erode_pixel (r : Rows) (y : Z) (st : Stencil * BitGrid) (x : Z)
  : Stencil * BitGrid :=
  let (s, g) := st in
  let ur := if x + 1 <? w g then load (rowu r) (x + 1) else false in
  let mr := if x + 1 <? w g then load (rowm r) (x + 1) else false in
  let lr := if x + 1 <? w g then load (rowl r) (x + 1) else false in
  let g' :=
    if negb (two_consecutive (s_ul s) (s_um s) ur mr lr (s_lm s) (s_ll s) (s_ml s))
    then set g x y false else g in
  (mkStencil (s_um s) ur (s_mm s) mr (s_lm s) lr, g').

(** Body of [for(int y=0; y<h; y++)], lines 268-291. *)
Definition erode_row (st : Rows * BitGrid) (y : Z) : Rows * BitGrid :=
  let (r, g) := st in
  let tmp := rowu r in
  let rl := for_int (w g) (fun row i => store row i (get g i (y + 1))) tmp in
  let r' := mkRows (rowm r) (rowl r) rl in
  let s0 := mkStencil false (load (rowu r') 0) false (load (rowm r') 0)
                      false (load (rowl r') 0) in
  (r', snd (for_int (w g) (erode_pixel r' y) (s0, g))).

(** [void BitGrid::erode()] *)
Definition erode (g : BitGrid) : BitGrid :=
  let r0 := mkRows (new_bool_array (w g)) (new_bool_array (w g)) (new_bool_array (w g)) in
  let r1 := for_int (w g)
              (fun r i => mkRows (rowu r) (store (rowm r) i false)
                                 (store (rowl r) i (get g i 0))) r0 in
  snd (for_int (h g) erode_row (r1, g)).

(** ** mask.cc: BitGrid::centroid *)

(** [double(v)] for an [int64_t] that holds a count or a coordinate sum.
    The sums are non-negative and below [2^62] for every grid of fewer
    than [2^31] pixels. *)
Definition double_of_int64 (v : Z) : float := PrimFloat.of_uint63 (Uint63.of_Z v).

(** The accumulators [accum_x], [accum_y], [cnt]. *)
Record Accum : Type := mkAccum { accum_x : Z; accum_y : Z; cnt : Z }.

(** [Vertex BitGrid::centroid()] *)
Definition centroid (g : BitGrid) : Vertex float :=
  let a :=
    for_int (h g) (fun a y =>
      for_int (w g) (fun a x =>
        if get g x y
        then mkAccum (accum_x a + x) (accum_y a + y) (cnt a + 1)
        else a) a) (mkAccum 0 0 0) in
  mkVertex (PrimFloat.div (double_of_int64 (accum_x a)) (double_of_int64 (cnt a)))
           (PrimFloat.div (double_of_int64 (accum_y a)) (double_of_int64 (cnt a))).

(** A grid given by its rows, for examples. *)
Definition grid_of_rows (rows : list (list bool)) : BitGrid :=
  let hh := Z.of_nat (length rows) in
  let ww := Z.of_nat (length (nth 0%nat rows [])) in
  for_int hh (fun g y =>
    for_int ww (fun g x => set g x y (nth (Z.to_nat x) (nth (Z.to_nat y) rows []) false)) g)
    (BitGrid_new ww hh).

Definition rows_of_grid (g : BitGrid) : list (list bool) :=
  map (fun y => map (fun x => get g (Z.of_nat x) (Z.of_nat y)) (seq 0 (Z.to_nat (w g))))
      (seq 0 (Z.to_nat (h g))).

Definition full4 : BitGrid :=
  grid_of_rows (repeat (repeat true 4%nat) 4%nat).

(** ** GDAL and NdvDef: the collaborators of the mask builder *)

(** [GDALDataType]: the builder only asks whether a band is [GDT_Byte]. *)
Inductive GDALDataType : Type := GDT_Byte | GDT_Other.

(** A raster band as the builder sees it: its type, its block size
    ([GDALGetBlockSize]) and the sample [GDALRasterIO] delivers at a pixel
    when asked for [GDT_Byte] or for [GDT_Float64]. *)
Record GDALRasterBand : Type := mkBand {
  band_type : GDALDataType;
  blocksize_x : Z;
  blocksize_y : Z;
  sample_8bit : Z -> Z -> Z;
  sample_dbl : Z -> Z -> float
}.

(** [GDALDatasetH]: [GDALGetRasterXSize], [GDALGetRasterYSize] and the
    bands, numbered from 1. *)
Record GDALDataset : Type := mkDataset {
  XSize : Z;
  YSize : Z;
  bands : list GDALRasterBand
}.

Definition GDALGetRasterCount (ds : GDALDataset) : Z := Z.of_nat (length (bands ds)).

Definition null_band : GDALRasterBand :=
  mkBand GDT_Other 0 0 (fun _ _ => 0) (fun _ _ => PrimFloat.zero).

Definition GDALGetRasterBand (ds : GDALDataset) (band_idx : Z) : GDALRasterBand :=
  nth (Z.to_nat (band_idx - 1)) (bands ds) null_band.

(** [GDALRasterIO(band, GF_Read, xoff, yoff, xsize, ysize, buf, xsize,
    ysize, type, 0, 0)]: the window, row after row, [xsize] samples a row. *)
Definition GDALRasterIO {T : Type} (sample : Z -> Z -> T) (xoff yoff xsize ysize : Z)
  : list T :=
  flat_map (fun j => map (fun i => sample (xoff + Z.of_nat i) (yoff + Z.of_nat j))
                         (seq 0 (Z.to_nat xsize)))
           (seq 0 (Z.to_nat ysize)).

(** The no-data predicate ([ndv.h] is not among the sources): it classifies
    one sample of the band at a position of the band list, for either
    sample representation, and it carries the invert flag. *)
Record NdvDef : Type := mkNdvDef {
  isNdv_8bit : Z -> Z -> bool;
  isNdv_dbl : Z -> float -> bool;
  isInvert : bool
}.

(** Modelled from the spec: [NdvDef::arrayCheckNdv] is declared in [ndv.h],
    which is not among the sources.  Section 6: it marks each of the
    [num_samples] samples as no-data or valid, writing the flags to
    [mask_out]. *)
Definition arrayCheckNdv {T : Type} (is_ndv : T -> bool) (in_data : list T)
    (mask_out : list bool) (num_samples : Z) : list bool :=
  for_int num_samples
    (fun out i => match in_data !! Z.to_nat i with
                  | Some v => store out i (is_ndv v)
                  | None => out
                  end) mask_out.

(** ** mask.cc: get_bitgrid_for_dataset *)

(** What a call comes to: it returns, it stops the program in
    [fatal_error], or it never leaves a loop. *)
Inductive Outcome (A : Type) : Type :=
  | Returns (a : A)
  | FatalError (msg : string)
  | Diverges.
Arguments Returns {A} _.
Arguments FatalError {A} _.
Arguments Diverges {A}.

(** [for(size_t off=0; off<limit; off+=step) body(off)].  The loop ends
    within [limit] rounds when [step] is positive and never when it is 0;
    [None] stands for the loop that does not end. *)
Fixpoint for_blocks {A : Type} (fuel : nat) (off limit step : Z)
    (body : A -> Z -> option A) (a : A) : option A :=
  if off <? limit then
    match fuel with
    | O => None
    | S fuel' =>
        match body a off with
        | Some a' => for_blocks fuel' (off + step) limit step body a'
        | None => None
        end
    end
  else Some a.

(** [bsize = blocksize; if(bsize + boff > limit) bsize = limit - boff;] *)
Definition clip_block (blocksize boff limit : Z) : Z :=
  if blocksize + boff >? limit then limit - boff else blocksize.

(** The block buffer in use: [block_buf_8bit] or [block_buf_dbl]. *)
Inductive BlockBuf : Type :=
  | Buf8bit (buf : list Z)
  | BufDbl (buf : list float).

(** Lines 212-224: one row of flags goes into the mask. *)
Definition apply_row_ndv (bandlist_idx : Z) (invert : bool) (row_ndv : list bool)
    (boff_x bsize_x y : Z) (mask : BitGrid) : BitGrid :=
  if bandlist_idx =? 0 then
    for_int bsize_x (fun m i => set m (boff_x + i) y (negb (load row_ndv i))) mask
  else if invert then
    for_int bsize_x (fun m i => if load row_ndv i then set m (boff_x + i) y false else m) mask
  else
    for_int bsize_x (fun m i => if negb (load row_ndv i) then set m (boff_x + i) y true else m) mask.

(** Lines 186-225: the rows of one block.  The read pointer [p] starts at
    the buffer and has moved on by [bsize_x] samples after a row (lines
    208-209, one per pixel); the flags of a row are rewritten in cells
    [0..bsize_x) before they are read. *)
Definition scan_block_rows (ndv_def : NdvDef) (bandlist_idx : Z) (blocksize_x : Z)
    (block : BlockBuf) (boff_x boff_y bsize_x bsize_y : Z) (mask : BitGrid) : BitGrid :=
  snd (for_int bsize_y
    (fun (st : Z * BitGrid) j =>
       let (p, mask) := st in
       let y := j + boff_y in
       let row_ndv0 := new_bool_array blocksize_x in
       let row_ndv :=
         match block with
         | BufDbl buf =>
             arrayCheckNdv (isNdv_dbl ndv_def bandlist_idx) (drop (Z.to_nat p) buf) row_ndv0 bsize_x
         | Buf8bit buf =>
             arrayCheckNdv (isNdv_8bit ndv_def bandlist_idx) (drop (Z.to_nat p) buf) row_ndv0 bsize_x
         end in
       (p + bsize_x,
        apply_row_ndv bandlist_idx (isInvert ndv_def) row_ndv boff_x bsize_x y mask))
    (0, mask)).

(** Lines 171-177: the block is read in the representation of the band. *)
Definition read_block (band : GDALRasterBand) (boff_x boff_y bsize_x bsize_y : Z) : BlockBuf :=
  match band_type band with
  | GDT_Byte => Buf8bit (GDALRasterIO (sample_8bit band) boff_x boff_y bsize_x bsize_y)
  | GDT_Other => BufDbl (GDALRasterIO (sample_dbl band) boff_x boff_y bsize_x bsize_y)
  end.

(** Lines 156-227: one band, block by block.  The progress reports and the
    debug plot write nothing the mask is computed from and are left out. *)
Definition scan_band (ndv_def : NdvDef) (bandlist_idx : Z) (band : GDALRasterBand)
    (w h : Z) (mask : BitGrid) : option BitGrid :=
  for_blocks (Z.to_nat h) 0 h (blocksize_y band)
    (fun mask boff_y =>
       let bsize_y := clip_block (blocksize_y band) boff_y h in
       for_blocks (Z.to_nat w) 0 w (blocksize_x band)
         (fun mask boff_x =>
            let bsize_x := clip_block (blocksize_x band) boff_x w in
            let block := read_block band boff_x boff_y bsize_x bsize_y in
            Some (scan_block_rows ndv_def bandlist_idx (blocksize_x band) block
                    boff_x boff_y bsize_x bsize_y mask))
         mask)
    mask.

(** Lines 128-228: the loop over the band list, from position
    [bandlist_idx] on. *)
Fixpoint band_loop (ds : GDALDataset) (ndv_def : NdvDef) (bandlist_idx : Z)
    (bandlist : list Z) (mask : BitGrid) : Outcome BitGrid :=
  match bandlist with
  | [] => Returns mask
  | band_idx :: rest =>
      if (band_idx <? 1) || (band_idx >? GDALGetRasterCount ds)
      then FatalError "bandid out of range"
      else
        match scan_band ndv_def bandlist_idx (GDALGetRasterBand ds band_idx)
                        (XSize ds) (YSize ds) mask with
        | Some mask' => band_loop ds ndv_def (bandlist_idx + 1) rest mask'
        | None => Diverges
        end
  end.

(** [BitGrid get_bitgrid_for_dataset(ds, bandlist, ndv_def, dbuf)] *)
Definition get_bitgrid_for_dataset (ds : GDALDataset) (bandlist : list Z)
    (ndv_def : NdvDef) : Outcome BitGrid :=
  let mask := zero (BitGrid_new (XSize ds) (YSize ds)) in
  band_loop ds ndv_def 0 bandlist mask.

(** The seed example of section 8: a 2 by 2 raster of two byte bands. *)
Definition band_of_rows (bx by_ : Z) (rows : list (list Z)) : GDALRasterBand :=
  mkBand GDT_Byte bx by_
    (fun x y => nth (Z.to_nat x) (nth (Z.to_nat y) rows []) 0)
    (fun _ _ => PrimFloat.zero).

Definition seed_dataset : GDALDataset :=
  mkDataset 2 2 [band_of_rows 2 1 [[5; 1]; [2; 5]]; band_of_rows 1 2 [[1; 5]; [5; 1]]].

Definition ndv_is (v : Z) (invert : bool) : NdvDef :=
  mkNdvDef (fun _ s => s =? v) (fun _ _ => false) invert.

Definition outcome_rows (o : Outcome BitGrid) : option (list (list bool)) :=
  match o with Returns m => Some (rows_of_grid m) | _ => None end.

(** ** mask.cc: read_dataset_8bit and get_bitgrid_for_8bit_raster *)

(** The pointers and arrays of the copy loop of [read_dataset_8bit]. *)
Record CopyState : Type := mkCopyState {
  p_in : Z;
  p_out : Z;
  outbuf : list Z;
  usage_array : list Z
}.

(** Lines 85-105: the rows of one block go to [outbuf], and every value
    seen is marked in [usage_array]. *)
Definition copy_block_rows (w : Z) (inbuf : list Z) (boff_x boff_y bsize_x bsize_y : Z)
    (out usage : list Z) : list Z * list Z :=
  let st :=
    for_int bsize_y
      (fun st j =>
         let y := j + boff_y in
         for_int bsize_x
           (fun st i =>
              let val := nth (Z.to_nat (p_in st)) inbuf 0 in
              mkCopyState (p_in st + 1) (p_out st + 1)
                          (<[Z.to_nat (p_out st) := val]> (outbuf st))
                          (<[Z.to_nat val := 1]> (usage_array st)))
           (mkCopyState (p_in st) (w * y + boff_x) (outbuf st) (usage_array st)))
      (mkCopyState 0 0 out usage) in
  (outbuf st, usage_array st).

(** [std::vector<uint8_t> read_dataset_8bit(ds, band_idx, usage_array, dbuf)]:
    the band as one buffer of [w*h] bytes, and the usage array. *)
Definition read_dataset_8bit (ds : GDALDataset) (band_idx : Z) (usage : list Z)
  : Outcome (list Z * list Z) :=
  let usage := for_int 256 (fun u i => <[Z.to_nat i := 0]> u) usage in
  let w := XSize ds in
  let h := YSize ds in
  if (band_idx <? 1) || (band_idx >? GDALGetRasterCount ds)
  then FatalError "bandid out of range"
  else
    let band := GDALGetRasterBand ds band_idx in
    let scan :=
      for_blocks (Z.to_nat h) 0 h (blocksize_y band)
        (fun st boff_y =>
           let bsize_y := clip_block (blocksize_y band) boff_y h in
           for_blocks (Z.to_nat w) 0 w (blocksize_x band)
             (fun st boff_x =>
                let bsize_x := clip_block (blocksize_x band) boff_x w in
                let inbuf := GDALRasterIO (sample_8bit band) boff_x boff_y bsize_x bsize_y in
                Some (copy_block_rows w inbuf boff_x boff_y bsize_x bsize_y (fst st) (snd st)))
             st)
        (repeat 0 (Z.to_nat (w * h)), usage) in
    match scan with
    | Some st => Returns st
    | None => Diverges
    end.

(** [BitGrid get_bitgrid_for_8bit_raster(w, h, raster, wanted)] *)
Definition get_bitgrid_for_8bit_raster (w h : Z) (raster : list Z) (wanted : Z) : BitGrid :=
  snd (for_int h
         (fun st y =>
            for_int w
              (fun (st : Z * BitGrid) x =>
                 (fst st + 1, set (snd st) x y (nth (Z.to_nat (fst st)) raster 0 =? wanted)))
              st)
         (0, BitGrid_new w h)).

(** ** What erosion is to compute *)

(** The pre-erosion value of a cell, [false] for a cell outside the grid. *)
Definition cell (g : BitGrid) (x y : Z) : bool := in_grid g x y && get g x y.

(** The eight neighbors of [(x,y)]; the row above is row [y-1]. *)
Definition n_ul (g : BitGrid) (x y : Z) : bool := cell g (x - 1) (y - 1).
Definition n_u  (g : BitGrid) (x y : Z) : bool := cell g x (y - 1).
Definition n_ur (g : BitGrid) (x y : Z) : bool := cell g (x + 1) (y - 1).
Definition n_r  (g : BitGrid) (x y : Z) : bool := cell g (x + 1) y.
Definition n_lr (g : BitGrid) (x y : Z) : bool := cell g (x + 1) (y + 1).
Definition n_d  (g : BitGrid) (x y : Z) : bool := cell g x (y + 1).
Definition n_ll (g : BitGrid) (x y : Z) : bool := cell g (x - 1) (y + 1).
Definition n_l  (g : BitGrid) (x y : Z) : bool := cell g (x - 1) y.

(** Some pair of neighbors that are consecutive around the ring
    ul, u, ur, r, lr, d, ll, l is filled: the pairs of lines 285-286. *)
Definition ring_pair_set (g : BitGrid) (x y : Z) : bool :=
  (n_ul g x y && n_u g x y) || (n_u g x y && n_ur g x y) ||
  (n_ur g x y && n_r g x y) || (n_r g x y && n_lr g x y) ||
  (n_lr g x y && n_d g x y) || (n_d g x y && n_ll g x y) ||
  (n_ll g x y && n_l g x y) || (n_l g x y && n_ul g x y).

(** The pairs as section 4.1 lists them:
    (ul,u),(u,ur),(ur,r),(r,lr),(lr,l),(l,ll),(ll,d),(d,ul). *)
Definition listed_pair_set (g : BitGrid) (x y : Z) : bool :=
  (n_ul g x y && n_u g x y) || (n_u g x y && n_ur g x y) ||
  (n_ur g x y && n_r g x y) || (n_r g x y && n_lr g x y) ||
  (n_lr g x y && n_l g x y) || (n_l g x y && n_ll g x y) ||
  (n_ll g x y && n_d g x y) || (n_d g x y && n_ul g x y).

(** ** What the mask builder is to compute *)

(** The flag of a pixel: what the no-data predicate says of the sample of
    [band] there, for the band at position [bandlist_idx] of the list. *)
Definition pixel_is_ndv (ndv_def : NdvDef) (bandlist_idx : Z) (band : GDALRasterBand)
    (x y : Z) : bool :=
  match band_type band with
  | GDT_Byte => isNdv_8bit ndv_def bandlist_idx (sample_8bit band x y)
  | GDT_Other => isNdv_dbl ndv_def bandlist_idx (sample_dbl band x y)
  end.

(** The combination rule of section 4.2 for one pixel: the band at position
    0 seeds the mask, a later band adds the pixel if it has data (invert
    off) or removes it if it has none (invert on). *)
Definition combination_rule (bandlist_idx : Z) (invert : bool) (is_ndv old : bool) : bool :=
  if bandlist_idx =? 0 then negb is_ndv
  else if invert then old && negb is_ndv
  else old || negb is_ndv.

(** The block sizes GDAL reports are positive. *)
Definition blocks_positive (ds : GDALDataset) : Prop :=
  forall band, In band (bands ds) -> 0 < blocksize_x band /\ 0 < blocksize_y band.

(** A band number the data set has. *)
Definition band_in_range (ds : GDALDataset) (band_idx : Z) : Prop :=
  1 <= band_idx <= GDALGetRasterCount ds.

(** ** Loop invariants of erosion *)

(** The buffer [row] holds row [y] of [g0]. *)
Definition row_holds (g0 : BitGrid) (row : list bool) (y : Z) : Prop :=
  length row = Z.to_nat (w g0) /\
  forall i, 0 <= i < w g0 -> load row i = get g0 i y.

(** The carried cells are those of [g0] around column [x] of row [y]. *)
Definition stencil_at (g0 : BitGrid) (s : Stencil) (x y : Z) : Prop :=
  s_ul s = get g0 (x - 1) (y - 1) /\ s_um s = get g0 x (y - 1) /\
  s_ml s = get g0 (x - 1) y /\ s_mm s = get g0 x y /\
  s_ll s = get g0 (x - 1) (y + 1) /\ s_lm s = get g0 x (y + 1).

(** [g] is [g0] with the pixels before [(x,y)] in raster order eroded and
    the others untouched. *)
Definition eroded_upto (g0 g : BitGrid) (x y : Z) : Prop :=
  w g = w g0 /\ h g = h g0 /\
  forall x' y',
    get g x' y' =
    if (y' <? y) || ((y' =? y) && (x' <? x))
    then get g0 x' y' && ring_pair_set g0 x' y'
    else get g0 x' y'.

(** The state between two rows: the buffers hold rows [y-1] and [y] of the
    original and the rows above [y] are eroded. *)
Definition between_rows (g0 : BitGrid) (st : Rows * BitGrid) (y : Z) : Prop :=
  length (rowu (fst st)) = Z.to_nat (w g0) /\
  row_holds g0 (rowm (fst st)) (y - 1) /\
  row_holds g0 (rowl (fst st)) y /\
  eroded_upto g0 (snd st) 0 y.

(** ** Loop invariant of the mask builder *)

(** [m] is [m0] with the rule [upd] applied, for the flags [f], to the
    pixels of the region [R], and untouched elsewhere. *)
Definition scanned (R : Z -> Z -> Prop) (f : Z -> Z -> bool) (upd : bool -> bool -> bool)
    (m0 m : BitGrid) : Prop :=
  w m = w m0 /\ h m = h m0 /\ wf_grid m /\
  forall x y, in_grid m0 x y = true ->
    (R x y -> get m x y = upd (f x y) (get m0 x y)) /\
    (~ R x y -> get m x y = get m0 x y).

(** [step] writes pixel [(x,y)] by the rule [v] and no other pixel. *)
Definition writes_pixel (step : BitGrid -> BitGrid) (x y : Z) (v : bool -> bool) : Prop :=
  forall m, wf_grid m -> in_grid m x y = true ->
    wf_grid (step m) /\ w (step m) = w m /\ h (step m) = h m /\
    get (step m) x y = v (get m x y) /\
    forall x' y', (x', y') <> (x, y) -> get (step m) x' y' = get m x' y'.

(** ** Example grids *)

(** A pixel whose left, upper right and lower right neighbors are set and
    no other: no two of them are consecutive around the ring. *)
Definition lone_neighbors : BitGrid :=
  grid_of_rows [[false; false; true]; [true; true; false]; [false; false; true]].

(** Every pixel of the grid is set. *)
Definition all_set (g : BitGrid) : Prop :=
  forall x y, in_grid g x y = true -> get g x y = true.

(** No pixel of the grid is set. *)
Definition none_set (g : BitGrid) : Prop :=
  forall x y, in_grid g x y = true -> get g x y = false.

(** ** More about erosion *)

(** Every pixel set in [g] is set in [g'], two grids of one size. *)
Definition subgrid (g g' : BitGrid) : Prop :=
  w g = w g' /\ h g = h g' /\ forall x y, get g x y = true -> get g' x y = true.

(** The number of set neighbors of a pixel. *)
Definition neighbors_set (g : BitGrid) (x y : Z) : Z :=
  Z.b2z (n_ul g x y) + Z.b2z (n_u g x y) + Z.b2z (n_ur g x y) + Z.b2z (n_r g x y) +
  Z.b2z (n_lr g x y) + Z.b2z (n_d g x y) + Z.b2z (n_ll g x y) + Z.b2z (n_l g x y).

(** The four pixels of the square whose upper left corner is [(x,y)] are
    set. *)
Definition square_set (g : BitGrid) (x y : Z) : Prop :=
  get g x y = true /\ get g (x + 1) y = true /\
  get g x (y + 1) = true /\ get g (x + 1) (y + 1) = true.

(** Grids for examples: an L in a 3 by 3 grid, the full 3 by 3 grid, one
    row, and a pixel with one neighbor. *)
Definition l_shape : BitGrid :=
  grid_of_rows [[true; false; false]; [true; true; false]; [false; false; false]].

Definition full3 : BitGrid := grid_of_rows (repeat (repeat true 3%nat) 3%nat).

Definition one_row : BitGrid := grid_of_rows [[true; true; true]].

Definition pair_of_pixels : BitGrid :=
  grid_of_rows [[false; false; false]; [false; true; true]; [false; false; false]].

(** ** Loop invariant of read_dataset_8bit *)

(** The value [v] is the sample of some pixel of the region [R]. *)
Definition occurs (ww hh : Z) (sample : Z -> Z -> Z) (R : Z -> Z -> Prop) (v : Z) : Prop :=
  exists x y, 0 <= x < ww /\ 0 <= y < hh /\ R x y /\ sample x y = v.

(** The output buffer holds the samples of the pixels of [R], and the
    usage array marks the values that occur among them and no other. *)
Definition covered (ww hh : Z) (sample : Z -> Z -> Z) (R : Z -> Z -> Prop)
    (out usage : list Z) : Prop :=
  length out = Z.to_nat (ww * hh) /\
  (forall x y, 0 <= x < ww -> 0 <= y < hh -> R x y ->
     nth (Z.to_nat (ww * y + x)) out 0 = sample x y) /\
  length usage = 256%nat /\
  (forall v, 0 <= v < 256 ->
     (nth (Z.to_nat v) usage 0 = 1 /\ occurs ww hh sample R v) \/
     (nth (Z.to_nat v) usage 0 = 0 /\ ~ occurs ww hh sample R v)).

(** The samples [GDALRasterIO] delivers for [GDT_Byte] are bytes. *)
Definition byte_samples (ww hh : Z) (sample : Z -> Z -> Z) : Prop :=
  forall x y, 0 <= x < ww -> 0 <= y < hh -> 0 <= sample x y < 256.

(** ** Rasters that differ in their tiling only *)

(** Two bands deliver the same samples in the same representation. *)
Definition same_samples (b1 b2 : GDALRasterBand) : Prop :=
  band_type b1 = band_type b2 /\
  (forall x y, sample_8bit b1 x y = sample_8bit b2 x y) /\
  (forall x y, sample_dbl b1 x y = sample_dbl b2 x y).

(** Two data sets of one size whose bands deliver the same samples; the
    block sizes are free. *)
Definition same_raster (ds1 ds2 : GDALDataset) : Prop :=
  XSize ds1 = XSize ds2 /\ YSize ds1 = YSize ds2 /\
  Forall2 same_samples (bands ds1) (bands ds2).

(** The seed raster in whole-image blocks. *)
Definition seed_dataset_one_block : GDALDataset :=
  mkDataset 2 2 [band_of_rows 2 2 [[5; 1]; [2; 5]]; band_of_rows 7 3 [[1; 5]; [5; 1]]].

(** ** More about bounding boxes *)

(** The box [expand] builds from a list of vertices, starting from the
    empty box of [Bbox::Bbox()]. *)
Definition box_of (l : list (Vertex Q)) : Bbox := fold_left expand l Bbox_new.

(** Each bound of the box is a coordinate of a vertex that satisfies [P]. *)
Definition attained (P : Vertex Q -> Prop) (bb : Bbox) : Prop :=
  empty bb = false /\
  (exists v, P v /\ min_x bb = vx v) /\ (exists v, P v /\ max_x bb = vx v) /\
  (exists v, P v /\ min_y bb = vy v) /\ (exists v, P v /\ max_y bb = vy v).

(** A box that is not empty has its bounds in order. *)
Definition box_ok (bb : Bbox) : Prop :=
  empty bb = false -> (min_x bb <= max_x bb)%Q /\ (min_y bb <= max_y bb)%Q.

(** Two boxes with the same flag and equal bounds. *)
Definition box_eq (bb1 bb2 : Bbox) : Prop :=
  empty bb1 = empty bb2 /\
  min_x bb1 == min_x bb2 /\ max_x bb1 == max_x bb2 /\
  min_y bb1 == min_y bb2 /\ max_y bb1 == max_y bb2.

(** ** The set pixels of a grid *)

(** The pixels of the grid, row after row. *)
Definition grid_pixels (g : BitGrid) : list (Z * Z) :=
  flat_map (fun j => map (fun i => (Z.of_nat i, Z.of_nat j)) (seq 0 (Z.to_nat (w g))))
           (seq 0 (Z.to_nat (h g))).

(** Those of them that are set. *)
Definition set_pixels (g : BitGrid) : list (Z * Z) :=
  List.filter (fun p => get g (fst p) (snd p)) (grid_pixels g).

Definition sum_list (l : list Z) : Z := fold_right Z.add 0 l.

(* ================================================================= *)
(** * Properties *)

(** ** Loops *)

Lemma for_int_nat {A : Type} (k : nat) (body : A -> Z -> A) (a : A) :
  for_int (Z.of_nat (S k)) body a = body (for_int (Z.of_nat k) body a) (Z.of_nat k).
Proof.
  unfold for_int. rewrite !Nat2Z.id, seq_S, fold_left_app. reflexivity.
Qed.

(** Invariant rule for a counted loop. *)
Lemma for_int_ind {A : Type} (P : Z -> A -> Prop) (n : Z) (body : A -> Z -> A) (a : A) :
  P 0 a ->
  (forall i s, 0 <= i < n -> P i s -> P (i + 1) (body s i)) ->
  P (Z.max 0 n) (for_int n body a).
Proof.
  intros H0 Hstep.
  assert (Hk : forall k : nat, Z.of_nat k <= Z.max 0 n ->
             P (Z.of_nat k) (for_int (Z.of_nat k) body a)).
  { induction k as [|k IH]; intros Hle.
    - exact H0.
    - rewrite for_int_nat. replace (Z.of_nat (S k)) with (Z.of_nat k + 1) by lia.
      apply Hstep; [lia | apply IH; lia]. }
  specialize (Hk (Z.to_nat n)).
  replace (Z.of_nat (Z.to_nat n)) with (Z.max 0 n) in Hk by lia.
  assert (E : for_int (Z.max 0 n) body a = for_int n body a).
  { unfold for_int. f_equal. f_equal. lia. }
  rewrite E in Hk. apply Hk. lia.
Qed.

Lemma for_int_nonpos {A : Type} (n : Z) (body : A -> Z -> A) (a : A) :
  n <= 0 -> for_int n body a = a.
Proof.
  intros Hn. unfold for_int. replace (Z.to_nat n) with 0%nat by lia. reflexivity.
Qed.

(** Invariant rule for a loop over blocks: with a positive step it ends. *)
Lemma for_blocks_ind {A : Type} (P : Z -> A -> Prop) (limit step : Z)
    (body : A -> Z -> option A) :
  0 < step ->
  (forall o s, 0 <= o < limit -> P o s -> exists s', body s o = Some s' /\ P (o + step) s') ->
  forall (fuel : nat) (off : Z) (a : A),
    0 <= off -> limit - off <= Z.of_nat fuel -> P off a ->
    exists s' o', for_blocks fuel off limit step body a = Some s' /\ limit <= o' /\ P o' s'.
Proof.
  intros Hstep Hbody. induction fuel as [|fuel IH]; intros off a Hoff Hfuel HP.
  - cbn [for_blocks]. replace (off <? limit) with false by lia.
    exists a, off. repeat split; [lia | exact HP].
  - cbn [for_blocks]. destruct (off <? limit) eqn:E.
    + destruct (Hbody off a ltac:(lia) HP) as (s' & Hs' & HP'). rewrite Hs'.
      apply IH; [lia | lia | exact HP'].
    + exists a, off. repeat split; [lia | exact HP].
Qed.

Lemma clip_block_bounds (blocksize boff limit : Z) :
  0 < blocksize -> 0 <= boff < limit ->
  0 < clip_block blocksize boff limit <= blocksize /\
  boff + clip_block blocksize boff limit <= limit /\
  (boff + blocksize < limit -> clip_block blocksize boff limit = blocksize) /\
  (limit <= boff + blocksize -> boff + clip_block blocksize boff limit = limit).
Proof. intros Hb Ho. unfold clip_block. destruct (blocksize + boff >? limit) eqn:E; lia. Qed.

(** ** BitGrid: reads and writes *)

Lemma in_grid_iff (g : BitGrid) (x y : Z) :
  in_grid g x y = true <-> 0 <= x < w g /\ 0 <= y < h g.
Proof. unfold in_grid. lia. Qed.

Lemma in_grid_false (g : BitGrid) (x y : Z) :
  in_grid g x y = false <-> ~ (0 <= x < w g /\ 0 <= y < h g).
Proof. unfold in_grid. lia. Qed.

Lemma land_7 (p : Z) : Z.land p 7 = p mod 8.
Proof. change 7 with (Z.ones 3). rewrite Z.land_ones by lia. reflexivity. Qed.

Lemma testbit_bit (k j : Z) : 0 <= k -> Z.testbit (Z.shiftl 1 k) j = (k =? j).
Proof. intros Hk. rewrite Z.shiftl_1_l. apply Z.pow2_bits_eqb. exact Hk. Qed.

Lemma get_outside (g : BitGrid) (x y : Z) : in_grid g x y = false -> get g x y = false.
Proof. intros H. unfold get. rewrite H. reflexivity. Qed.

Lemma w_set (g : BitGrid) (x y : Z) (v : bool) : w (set g x y v) = w g.
Proof. unfold set. destruct (in_grid g x y); reflexivity. Qed.

Lemma h_set (g : BitGrid) (x y : Z) (v : bool) : h (set g x y v) = h g.
Proof. unfold set. destruct (in_grid g x y); reflexivity. Qed.

Lemma in_grid_set (g : BitGrid) (x y : Z) (v : bool) (x' y' : Z) :
  in_grid (set g x y v) x' y' = in_grid g x' y'.
Proof. unfold in_grid. rewrite w_set, h_set. reflexivity. Qed.

Lemma wf_set (g : BitGrid) (x y : Z) (v : bool) : wf_grid g -> wf_grid (set g x y v).
Proof.
  unfold wf_grid. rewrite w_set, h_set. intros Hl.
  unfold set. destruct (in_grid g x y); [simpl; rewrite length_insert|]; exact Hl.
Qed.

(** The byte that holds an in-range pixel exists. *)
Lemma byte_index_lt (g : BitGrid) (x y : Z) :
  wf_grid g -> in_grid g x y = true ->
  (Z.to_nat ((w g * y + x) / 8) < length (grid g))%nat.
Proof.
  intros Hl Hin. apply in_grid_iff in Hin. unfold wf_grid in Hl. rewrite Hl. unfold arrlen.
  assert (0 <= w g * y + x) by nia.
  assert (w g * y + x < w g * h g) by nia.
  assert (0 <= (w g * y + x) / 8) by (apply Z.div_pos; lia).
  apply Z2Nat.inj_lt; try lia.
  - apply Z.div_pos; nia.
  - apply Z.div_lt_upper_bound; try lia.
    pose proof (Z.mul_div_le (w g * h g + 7) 8 ltac:(lia)) as Hd.
    pose proof (Z.mod_pos_bound (w g * h g + 7) 8 ltac:(lia)) as Hm.
    pose proof (Z.div_mod (w g * h g + 7) 8 ltac:(lia)). lia.
Qed.

(** Reads of a list after a write by index. *)
Lemma nth_insert_same {A : Type} (l : list A) (i : nat) (v d : A) :
  (i < length l)%nat -> nth i (<[i := v]> l) d = v.
Proof.
  intros Hlt. apply nth_lookup_Some. apply list_lookup_insert_eq. exact Hlt.
Qed.

Lemma nth_insert_other {A : Type} (l : list A) (i j : nat) (v d : A) :
  i <> j -> nth j (<[i := v]> l) d = nth j l d.
Proof.
  intros Hne. rewrite !nth_lookup, list_lookup_insert_ne by exact Hne. reflexivity.
Qed.

Lemma nth_beyond {A : Type} (l : list A) (i : nat) (d : A) :
  (length l <= i)%nat -> nth i l d = d.
Proof. intros Hge. apply nth_overflow. exact Hge. Qed.

(** Clearing a pixel: it reads back [false], whatever the storage holds. *)
Lemma get_set_false (g : BitGrid) (x y : Z) : get (set g x y false) x y = false.
Proof.
  unfold get. rewrite in_grid_set. destruct (in_grid g x y) eqn:Hin; [|reflexivity].
  unfold set. rewrite Hin. cbn [w h grid].
  set (p := w g * y + x).
  assert (Hb : 0 <= Z.land p 7) by (rewrite land_7; apply Z.mod_pos_bound; lia).
  destruct (decide (Z.to_nat (p / 8) < length (grid g))%nat) as [Hlt|Hge].
  - rewrite nth_insert_same by exact Hlt.
    rewrite Z.land_spec, Z.lnot_spec, testbit_bit, Z.eqb_refl by exact Hb.
    apply andb_false_r.
  - rewrite list_insert_ge by lia. rewrite nth_beyond by lia. apply Z.bits_0.
Qed.

(** Writing a pixel: with the storage invariant it reads back the value. *)
Lemma get_set_same (g : BitGrid) (x y : Z) (v : bool) :
  wf_grid g -> in_grid g x y = true -> get (set g x y v) x y = v.
Proof.
  intros Hwf Hin. destruct v; [|apply get_set_false].
  pose proof (byte_index_lt g x y Hwf Hin) as Hlt.
  unfold get. rewrite in_grid_set, Hin. unfold set. rewrite Hin. cbn [w h grid].
  set (p := w g * y + x) in *.
  assert (Hb : 0 <= Z.land p 7) by (rewrite land_7; apply Z.mod_pos_bound; lia).
  rewrite nth_insert_same by exact Hlt.
  rewrite Z.lor_spec, testbit_bit, Z.eqb_refl by exact Hb.
  apply orb_true_r.
Qed.

(** Two bit positions in one byte are the same pixel. *)
Lemma bit_position_inj (p q : Z) : p / 8 = q / 8 -> p mod 8 = q mod 8 -> p = q.
Proof.
  intros Hd Hm. rewrite (Z.div_mod p 8), (Z.div_mod q 8) by lia. congruence.
Qed.

(** A write leaves every other pixel as it was. *)
Lemma get_set_other (g : BitGrid) (x y : Z) (v : bool) (x' y' : Z) :
  (x', y') <> (x, y) -> get (set g x y v) x' y' = get g x' y'.
Proof.
  intros Hne. unfold get. rewrite in_grid_set.
  destruct (in_grid g x' y') eqn:Hin'; [|reflexivity].
  unfold set. destruct (in_grid g x y) eqn:Hin; [|reflexivity]. cbn [w h grid].
  apply in_grid_iff in Hin, Hin'.
  set (p := w g * y + x). set (q := w g * y' + x').
  assert (Hpq : p <> q).
  { subst p q. intros E. apply Hne.
    assert (y = y') by nia. subst y'. f_equal. lia. }
  assert (0 <= p) by (subst p; nia). assert (0 <= q) by (subst q; nia).
  destruct (decide (Z.to_nat (p / 8) = Z.to_nat (q / 8))) as [Ei|Ni].
  - assert (Ediv : p / 8 = q / 8).
    { apply Z2Nat.inj; try (apply Z.div_pos; lia). exact Ei. }
    assert (Nmod : p mod 8 <> q mod 8) by (intros E; apply Hpq, bit_position_inj; assumption).
    rewrite <- Ei.
    destruct (decide (Z.to_nat (p / 8) < length (grid g))%nat) as [Hlt|Hge].
    + rewrite nth_insert_same by exact Hlt.
      assert (Hk : (p mod 8 =? q mod 8) = false) by lia.
      pose proof (Z.mod_pos_bound p 8 ltac:(lia)). pose proof (Z.mod_pos_bound q 8 ltac:(lia)).
      destruct v.
      * rewrite Z.lor_spec, testbit_bit, !land_7, Hk by (rewrite land_7; lia).
        apply orb_false_r.
      * rewrite Z.land_spec, Z.lnot_spec, testbit_bit, !land_7, Hk by (rewrite land_7; lia).
        apply andb_true_r.
    + rewrite list_insert_ge by lia. reflexivity.
  - rewrite nth_insert_other by exact Ni. reflexivity.
Qed.

(** A fresh grid has no pixel set. *)
Lemma get_new (ww hh x y : Z) : get (BitGrid_new ww hh) x y = false.
Proof.
  unfold get, BitGrid_new. cbn [w h grid]. destruct (in_grid _ x y); [|reflexivity].
  rewrite nth_repeat. apply Z.bits_0.
Qed.

Lemma get_zero (g : BitGrid) (x y : Z) : get (zero g) x y = false.
Proof.
  unfold get, zero, in_grid. cbn [w h grid].
  destruct (_ && _ && _ && _); [|reflexivity].
  destruct (decide (Z.to_nat ((w g * y + x) / 8) < length (grid g))%nat) as [Hlt|Hge].
  - change 0 with ((fun _ : Z => 0) 0) at 2. rewrite map_nth. apply Z.bits_0.
  - rewrite nth_beyond by (rewrite length_map; lia). apply Z.bits_0.
Qed.

Lemma wf_new (ww hh : Z) : wf_grid (BitGrid_new ww hh).
Proof. unfold wf_grid, BitGrid_new. cbn [w h grid]. apply repeat_length. Qed.

Lemma wf_zero (g : BitGrid) : wf_grid g -> wf_grid (zero g).
Proof.
  unfold wf_grid, zero. cbn [w h grid]. rewrite length_map. auto.
Qed.

(** Grids of one size have the same pixels in range. *)
Lemma in_grid_dims (m m0 : BitGrid) (x y : Z) :
  w m = w m0 -> h m = h m0 -> in_grid m x y = in_grid m0 x y.
Proof. intros Hw Hh. unfold in_grid. rewrite Hw, Hh. reflexivity. Qed.

(** ** Erosion *)

Lemma cell_get (g : BitGrid) (x y : Z) : cell g x y = get g x y.
Proof. unfold cell, get. destruct (in_grid g x y); reflexivity. Qed.

Lemma load_store_same (row : list bool) (i : Z) (v : bool) :
  0 <= i -> (Z.to_nat i < length row)%nat -> load (store row i v) i = v.
Proof. intros Hi Hlt. unfold load, store. apply nth_insert_same. exact Hlt. Qed.

Lemma load_store_other (row : list bool) (i j : Z) (v : bool) :
  0 <= i -> 0 <= j -> i <> j -> load (store row i v) j = load row j.
Proof. intros Hi Hj Hne. unfold load, store. apply nth_insert_other. lia. Qed.

Lemma length_store (row : list bool) (i : Z) (v : bool) :
  length (store row i v) = length row.
Proof. unfold store. apply length_insert. Qed.

Lemma load_beyond (row : list bool) (i : Z) :
  (length row <= Z.to_nat i)%nat -> load row i = false.
Proof. intros H. unfold load. apply nth_beyond. exact H. Qed.

(** Filling a buffer cell by cell. *)
Lemma for_int_store (n : Z) (f : Z -> bool) (row : list bool) :
  length row = Z.to_nat n ->
  length (for_int n (fun r i => store r i (f i)) row) = Z.to_nat n /\
  forall i, 0 <= i < n ->
    load (for_int n (fun r i => store r i (f i)) row) i = f i.
Proof.
  intros Hlen.
  pose proof (for_int_ind
    (fun i r => length r = Z.to_nat n /\ forall j, 0 <= j < i -> load r j = f j)
    n (fun r i => store r i (f i)) row) as H.
  cbv beta in H. destruct H as [Hl Hv].
  - split; [exact Hlen | intros j Hj; lia].
  - intros i r Hi [Hl Hv]. split; [rewrite length_store; exact Hl|].
    intros j Hj. destruct (Z.eq_dec j i) as [->|Hne].
    + apply load_store_same; lia.
    + rewrite load_store_other by lia. apply Hv. lia.
  - split; [exact Hl | intros i Hi; apply Hv; lia].
Qed.

Lemma row_holds_fill (g0 g : BitGrid) (tmp : list bool) (y : Z) :
  w g = w g0 -> length tmp = Z.to_nat (w g0) ->
  (forall i, get g i y = get g0 i y) ->
  row_holds g0 (for_int (w g) (fun row i => store row i (get g i y)) tmp) y.
Proof.
  intros Hw Hlen Hget. rewrite Hw.
  destruct (for_int_store (w g0) (fun i => get g i y) tmp Hlen) as [Hl Hv].
  split; [exact Hl|]. intros i Hi. rewrite Hv by exact Hi. apply Hget.
Qed.

(** Reading one cell to the right, lines 279-281. *)
Lemma load_right (g0 : BitGrid) (row : list bool) (x y : Z) :
  row_holds g0 row y -> 0 <= x ->
  (if x + 1 <? w g0 then load row (x + 1) else false) = get g0 (x + 1) y.
Proof.
  intros [Hl Hv] Hx. destruct (x + 1 <? w g0) eqn:E.
  - apply Hv. lia.
  - symmetry. apply get_outside, in_grid_false. lia.
Qed.

(** Reading cell 0 of a buffer, lines 274-276. *)
Lemma load_first (g0 : BitGrid) (row : list bool) (y : Z) :
  row_holds g0 row y -> load row 0 = get g0 0 y.
Proof.
  intros [Hl Hv]. destruct (Z_lt_dec 0 (w g0)) as [Hpos|Hnpos].
  - apply Hv. lia.
  - rewrite load_beyond by lia. symmetry. apply get_outside, in_grid_false. lia.
Qed.

Lemma ring_pair_set_get (g : BitGrid) (x y : Z) :
  ring_pair_set g x y =
  two_consecutive (get g (x - 1) (y - 1)) (get g x (y - 1)) (get g (x + 1) (y - 1))
                  (get g (x + 1) y) (get g (x + 1) (y + 1)) (get g x (y + 1))
                  (get g (x - 1) (y + 1)) (get g (x - 1) y).
Proof.
  unfold ring_pair_set, two_consecutive, n_ul, n_u, n_ur, n_r, n_lr, n_d, n_ll, n_l.
  rewrite !cell_get. reflexivity.
Qed.

(** One step of the inner loop keeps the invariants. *)
Lemma erode_pixel_step (g0 : BitGrid) (r : Rows) (s : Stencil) (g : BitGrid) (x y : Z) :
  row_holds g0 (rowu r) (y - 1) -> row_holds g0 (rowm r) y ->
  row_holds g0 (rowl r) (y + 1) ->
  0 <= x -> stencil_at g0 s x y -> eroded_upto g0 g x y ->
  stencil_at g0 (fst (erode_pixel r y (s, g) x)) (x + 1) y /\
  eroded_upto g0 (snd (erode_pixel r y (s, g) x)) (x + 1) y.
Proof.
  intros Hu Hm Hl Hx (Eul & Eum & Eml & Emm & Ell & Elm) (Hw & Hh & Hg).
  unfold erode_pixel. rewrite Hw.
  rewrite (load_right g0 _ x (y - 1) Hu Hx), (load_right g0 _ x y Hm Hx),
          (load_right g0 _ x (y + 1) Hl Hx).
  cbn [fst snd s_ul s_um s_ml s_mm s_ll s_lm]. split.
  - unfold stencil_at. cbn [s_ul s_um s_ml s_mm s_ll s_lm].
    replace (x + 1 - 1) with x by lia. repeat split; assumption.
  - rewrite Eul, Eum, Elm, Ell, Eml. rewrite <- ring_pair_set_get.
    split; [|split].
    + destruct (negb _); [rewrite w_set|]; exact Hw.
    + destruct (negb _); [rewrite h_set|]; exact Hh.
    + intros x' y'. destruct (decide ((x', y') = (x, y))) as [E|Hne].
      * inversion E; subst x' y'.
        replace ((y <? y) || ((y =? y) && (x <? x + 1))) with true by lia.
        specialize (Hg x y).
        replace ((y <? y) || ((y =? y) && (x <? x))) with false in Hg by lia.
        destruct (ring_pair_set g0 x y); cbn [negb].
        -- rewrite Hg. symmetry. apply andb_true_r.
        -- rewrite get_set_false. symmetry. apply andb_false_r.
      * assert (Hc : (y' <? y) || ((y' =? y) && (x' <? x + 1)) =
                     (y' <? y) || ((y' =? y) && (x' <? x))).
        { assert (x' <> x \/ y' <> y) by (destruct (Z.eq_dec x' x); [right; congruence | left; assumption]).
          lia. }
        rewrite Hc, <- Hg. destruct (negb _); [apply get_set_other; exact Hne | reflexivity].
Qed.

(** The inner loop erodes row [y]. *)
Lemma erode_row_pixels (g0 : BitGrid) (r : Rows) (g : BitGrid) (y : Z) :
  row_holds g0 (rowu r) (y - 1) -> row_holds g0 (rowm r) y ->
  row_holds g0 (rowl r) (y + 1) -> eroded_upto g0 g 0 y ->
  eroded_upto g0
    (snd (for_int (w g) (erode_pixel r y)
            (mkStencil false (load (rowu r) 0) false (load (rowm r) 0)
                       false (load (rowl r) 0), g)))
    (Z.max 0 (w g0)) y.
Proof.
  intros Hu Hm Hl Hg.
  assert (Hw : w g = w g0) by apply Hg. rewrite Hw.
  pose proof (for_int_ind
    (fun x st => 0 <= x /\ stencil_at g0 (fst st) x y /\ eroded_upto g0 (snd st) x y)
    (w g0) (erode_pixel r y)
    (mkStencil false (load (rowu r) 0) false (load (rowm r) 0)
               false (load (rowl r) 0), g)) as H.
  cbv beta in H. apply H.
  - split; [lia|]. split; [|exact Hg].
    unfold stencil_at. cbn [fst s_ul s_um s_ml s_mm s_ll s_lm].
    rewrite (load_first g0 _ _ Hu), (load_first g0 _ _ Hm), (load_first g0 _ _ Hl).
    repeat split; try reflexivity;
      symmetry; apply get_outside, in_grid_false; lia.
  - intros x [s g1] Hx (Hx0 & Hs & He). cbn [fst snd] in Hs, He.
    split; [lia|]. apply erode_pixel_step; assumption.
Qed.

Lemma eroded_upto_next_row (g0 g : BitGrid) (y : Z) :
  eroded_upto g0 g (Z.max 0 (w g0)) y -> eroded_upto g0 g 0 (y + 1).
Proof.
  intros (Hw & Hh & Hg). split; [exact Hw|]. split; [exact Hh|].
  intros x' y'. rewrite Hg.
  destruct (in_grid g0 x' y') eqn:Hin.
  - apply in_grid_iff in Hin.
    replace ((y' <? y + 1) || ((y' =? y + 1) && (x' <? 0)))
      with ((y' <? y) || ((y' =? y) && (x' <? Z.max 0 (w g0)))) by lia.
    reflexivity.
  - rewrite (get_outside g0 x' y' Hin). destruct (_ || _), (_ || _); reflexivity.
Qed.

Lemma erode_row_step (g0 : BitGrid) (st : Rows * BitGrid) (y : Z) :
  between_rows g0 st y -> between_rows g0 (erode_row st y) (y + 1).
Proof.
  destruct st as [r g]. intros (Hlu & Hm & Hl & Hg). cbn [fst snd] in *.
  assert (Hw : w g = w g0) by apply Hg.
  assert (Hfill : row_holds g0
            (for_int (w g) (fun row i => store row i (get g i (y + 1))) (rowu r)) (y + 1)).
  { apply row_holds_fill; [exact Hw | exact Hlu |].
    intros i. destruct Hg as (_ & _ & Hg). rewrite Hg.
    replace ((y + 1 <? y) || ((y + 1 =? y) && (i <? 0))) with false by lia.
    reflexivity. }
  unfold erode_row. unfold between_rows. cbn [fst snd rowu rowm rowl].
  replace (y + 1 - 1) with y by lia.
  split; [apply Hm|]. split; [exact Hl|]. split; [exact Hfill|].
  apply eroded_upto_next_row.
  apply (erode_row_pixels g0
           (mkRows (rowm r) (rowl r)
              (for_int (w g) (fun row i => store row i (get g i (y + 1))) (rowu r))) g y);
    cbn [rowu rowm rowl]; assumption.
Qed.

(** The buffers after the first loop, lines 262-265. *)
Lemma erode_init (g : BitGrid) :
  between_rows g
    (for_int (w g)
       (fun r i => mkRows (rowu r) (store (rowm r) i false)
                          (store (rowl r) i (get g i 0)))
       (mkRows (new_bool_array (w g)) (new_bool_array (w g)) (new_bool_array (w g))), g) 0.
Proof.
  pose proof (for_int_ind
    (fun i r => length (rowu r) = Z.to_nat (w g) /\
                length (rowm r) = Z.to_nat (w g) /\
                length (rowl r) = Z.to_nat (w g) /\
                forall j, 0 <= j < i -> load (rowm r) j = false /\ load (rowl r) j = get g j 0)
    (w g)
    (fun r i => mkRows (rowu r) (store (rowm r) i false) (store (rowl r) i (get g i 0)))
    (mkRows (new_bool_array (w g)) (new_bool_array (w g)) (new_bool_array (w g)))) as H.
  cbv beta in H. destruct H as (Hu & Hm & Hl & Hv).
  - cbn [rowu rowm rowl]. unfold new_bool_array. rewrite repeat_length.
    repeat split; try reflexivity; lia.
  - intros i r Hi (Hu & Hm & Hl & Hv). cbn [rowu rowm rowl].
    rewrite !length_store. split; [exact Hu|]. split; [exact Hm|]. split; [exact Hl|].
    intros j Hj. destruct (Z.eq_dec j i) as [->|Hne].
    + split; apply load_store_same; lia.
    + rewrite !load_store_other by lia. apply Hv. lia.
  - unfold between_rows. cbn [fst snd]. split; [exact Hu|]. split; [|split].
    + split; [exact Hm|]. intros i Hi. rewrite (proj1 (Hv i ltac:(lia))).
      symmetry. apply get_outside, in_grid_false. lia.
    + split; [exact Hl|]. intros i Hi. apply Hv. lia.
    + split; [reflexivity|]. split; [reflexivity|]. intros x' y'.
      destruct (in_grid g x' y') eqn:Hin.
      * apply in_grid_iff in Hin.
        replace ((y' <? 0) || ((y' =? 0) && (x' <? 0))) with false by lia. reflexivity.
      * rewrite (get_outside g x' y' Hin). destruct (_ || _); reflexivity.
Qed.

(** Erosion, pixel by pixel: dimensions are kept and a pixel is set
    afterwards exactly when it was set and two consecutive neighbors were
    set, all read in the grid as it was before. *)
Lemma erode_pixelwise (g : BitGrid) :
  w (erode g) = w g /\ h (erode g) = h g /\
  forall x y, get (erode g) x y = get g x y && ring_pair_set g x y.
Proof.
  pose proof (for_int_ind (fun y st => 0 <= y /\ between_rows g st y) (h g) erode_row
    (for_int (w g)
       (fun r i => mkRows (rowu r) (store (rowm r) i false)
                          (store (rowl r) i (get g i 0)))
       (mkRows (new_bool_array (w g)) (new_bool_array (w g)) (new_bool_array (w g))), g)) as H.
  cbv beta in H. destruct H as (_ & _ & _ & _ & Hw & Hh & Hg).
  - split; [lia | apply erode_init].
  - intros y st Hy [Hy0 Hst]. split; [lia | apply erode_row_step; exact Hst].
  - fold (erode g) in Hw, Hh, Hg. split; [exact Hw|]. split; [exact Hh|].
    intros x y. rewrite Hg. destruct (in_grid g x y) eqn:Hin.
    + apply in_grid_iff in Hin.
      replace ((y <? Z.max 0 (h g)) || ((y =? Z.max 0 (h g)) && (x <? 0))) with true by lia.
      reflexivity.
    + rewrite (get_outside g x y Hin). destruct (_ || _); reflexivity.
Qed.

(** ** Erosion: the claims *)

(** C1, as the specification lists the pairs, fails: in [lone_neighbors]
    the center pixel is set and the listed pair (lr,l) has both members
    set, yet erosion clears the pixel. *)
Lemma erode_listed_pairs_counterexample :
  in_grid lone_neighbors 1 1 = true /\
  get lone_neighbors 1 1 = true /\
  n_lr lone_neighbors 1 1 = true /\ n_l lone_neighbors 1 1 = true /\
  listed_pair_set lone_neighbors 1 1 = true /\
  get (erode lone_neighbors) 1 1 = false.
Proof. vm_compute. repeat split; reflexivity. Qed.

(** C1 (amended): for every BitGrid and every in-range pixel, after
    [erode] the pixel is set if and only if it was set before and one of
    the eight pairs of neighbors consecutive around the ring,
    (ul,u),(u,ur),(ur,r),(r,lr),(lr,d),(d,ll),(ll,l),(l,ul), had both
    members set before, a neighbor outside the grid counting as unset; all
    nine cells are read in the grid as it was before erosion. *)
Theorem erode_ring_pairs (g : BitGrid) (x y : Z) :
  in_grid g x y = true ->
  (get (erode g) x y = true <->
   get g x y = true /\ ring_pair_set g x y = true).
Proof.
  intros _. destruct (erode_pixelwise g) as (_ & _ & Hg). rewrite Hg.
  apply andb_true_iff.
Qed.

Lemma erode_ring_pairs_witness :
  in_grid full4 0 0 = true /\
  (get (erode full4) 0 0 = true <->
   get full4 0 0 = true /\ ring_pair_set full4 0 0 = true).
Proof. split; [reflexivity | apply (erode_ring_pairs full4 0 0); reflexivity]. Defined.

(** C10: erosion is anti-extensive; a pixel set after [erode] was set
    before. *)
Theorem erode_anti_extensive (g : BitGrid) (x y : Z) :
  in_grid g x y = true -> get (erode g) x y = true -> get g x y = true.
Proof.
  intros _ H. destruct (erode_pixelwise g) as (_ & _ & Hg). rewrite Hg in H.
  apply andb_true_iff in H. apply H.
Qed.

Lemma erode_anti_extensive_witness :
  in_grid full4 1 2 = true /\ get (erode full4) 1 2 = true /\ get full4 1 2 = true.
Proof.
  split; [reflexivity|]. split; [reflexivity|].
  apply (erode_anti_extensive full4 1 2); reflexivity.
Defined.

(** C4, as stated, fails: after [erode] on the 4 by 4 grid with every
    pixel set the corner (0,0) is still set. *)
Lemma erode_full4_corner_counterexample :
  w full4 = 4 /\ h full4 = 4 /\
  rows_of_grid full4 = repeat (repeat true 4%nat) 4%nat /\
  get (erode full4) 0 0 = true.
Proof. vm_compute. repeat split; reflexivity. Qed.

(** On a grid with every pixel set, a cell is set exactly when it lies in
    the grid. *)
Lemma cell_all_set (g : BitGrid) (x y : Z) : all_set g -> cell g x y = in_grid g x y.
Proof.
  intros Hall. unfold cell. destruct (in_grid g x y) eqn:Hin; [|reflexivity].
  rewrite (Hall x y Hin). reflexivity.
Qed.

(** C4 (amended): [erode] on a 4 by 4 BitGrid with every pixel set leaves
    the four corner cells set; each corner has three neighbors in the
    grid, consecutive around the ring.  No pixel of that grid is cleared. *)
Theorem erode_full_4x4 (g : BitGrid) :
  w g = 4 -> h g = 4 -> all_set g ->
  get (erode g) 0 0 = true /\ get (erode g) 3 0 = true /\
  get (erode g) 0 3 = true /\ get (erode g) 3 3 = true /\
  all_set (erode g).
Proof.
  intros Hw Hh Hall.
  destruct (erode_pixelwise g) as (Hw' & Hh' & Hg).
  assert (Hin : forall x y, in_grid g x y = true -> get (erode g) x y = true).
  { intros x y Hin. rewrite Hg, (Hall x y Hin). cbn [andb].
    unfold ring_pair_set, n_ul, n_u, n_ur, n_r, n_lr, n_d, n_ll, n_l.
    rewrite !cell_all_set by exact Hall.
    apply in_grid_iff in Hin. rewrite Hw, Hh in Hin.
    unfold in_grid. rewrite Hw, Hh.
    assert (Hx : x = 0 \/ x = 1 \/ x = 2 \/ x = 3) by lia.
    assert (Hy : y = 0 \/ y = 1 \/ y = 2 \/ y = 3) by lia.
    destruct Hx as [-> | [-> | [-> | ->]]], Hy as [-> | [-> | [-> | ->]]]; reflexivity. }
  repeat split; try (apply Hin; unfold in_grid; rewrite Hw, Hh; reflexivity).
  intros x y Hxy. apply Hin. rewrite <- Hxy. symmetry. apply in_grid_dims; assumption.
Qed.

Lemma full4_all_set : all_set full4.
Proof.
  intros x y Hin. apply in_grid_iff in Hin. change (w full4) with 4 in Hin.
  change (h full4) with 4 in Hin.
  assert (Hx : x = 0 \/ x = 1 \/ x = 2 \/ x = 3) by lia.
  assert (Hy : y = 0 \/ y = 1 \/ y = 2 \/ y = 3) by lia.
  destruct Hx as [-> | [-> | [-> | ->]]], Hy as [-> | [-> | [-> | ->]]]; reflexivity.
Defined.

Lemma erode_full_4x4_witness :
  get (erode full4) 0 0 = true /\ get (erode full4) 3 0 = true /\
  get (erode full4) 0 3 = true /\ get (erode full4) 3 3 = true /\
  all_set (erode full4).
Proof. apply (erode_full_4x4 full4); [reflexivity | reflexivity | exact full4_all_set]. Defined.

(** ** The centroid: the claims *)

(** With no pixel set the three accumulators stay at zero. *)
Lemma centroid_accum_none_set (g : BitGrid) :
  none_set g ->
  for_int (h g) (fun a y =>
    for_int (w g) (fun a x =>
      if get g x y
      then mkAccum (accum_x a + x) (accum_y a + y) (cnt a + 1)
      else a) a) (mkAccum 0 0 0) = mkAccum 0 0 0.
Proof.
  intros Hnone.
  apply (for_int_ind (fun _ a => a = mkAccum 0 0 0)); [reflexivity|].
  intros y a Hy ->.
  apply (for_int_ind (fun _ a => a = mkAccum 0 0 0)); [reflexivity|].
  intros x a Hx ->. rewrite Hnone; [reflexivity|]. apply in_grid_iff. lia.
Qed.

(** C3, as stated, fails: on the fresh 2 by 2 grid, where no pixel is set,
    [centroid] returns, and both coordinates of the Vertex are NaN. *)
Lemma centroid_empty_counterexample :
  rows_of_grid (BitGrid_new 2 2) = [[false; false]; [false; false]] /\
  PrimFloat.is_nan (vx (centroid (BitGrid_new 2 2))) = true /\
  PrimFloat.is_nan (vy (centroid (BitGrid_new 2 2))) = true.
Proof. vm_compute. repeat split; reflexivity. Qed.

(** C3 (amended): for every BitGrid in which no pixel is set, [centroid]
    raises no error: it returns the Vertex whose two coordinates are the
    quotient 0.0/0.0, which is NaN. *)
Theorem centroid_none_set (g : BitGrid) :
  none_set g ->
  centroid g = mkVertex (PrimFloat.div (double_of_int64 0) (double_of_int64 0))
                        (PrimFloat.div (double_of_int64 0) (double_of_int64 0)) /\
  PrimFloat.is_nan (vx (centroid g)) = true /\
  PrimFloat.is_nan (vy (centroid g)) = true.
Proof.
  intros Hnone. unfold centroid. rewrite (centroid_accum_none_set g Hnone).
  cbn [accum_x accum_y cnt vx vy]. repeat split; reflexivity.
Qed.

Lemma new_none_set (ww hh : Z) : none_set (BitGrid_new ww hh).
Proof. intros x y _. apply get_new. Defined.

Lemma centroid_none_set_witness :
  centroid (BitGrid_new 3 2)
  = mkVertex (PrimFloat.div (double_of_int64 0) (double_of_int64 0))
             (PrimFloat.div (double_of_int64 0) (double_of_int64 0)) /\
  PrimFloat.is_nan (vx (centroid (BitGrid_new 3 2))) = true /\
  PrimFloat.is_nan (vy (centroid (BitGrid_new 3 2))) = true.
Proof. apply (centroid_none_set (BitGrid_new 3 2)). apply new_none_set. Defined.

(** ** The mask builder *)

(** Two descriptions of a region agree on the pixels of the grid. *)
Ltac same_region :=
  let x := fresh "x" in
  let y := fresh "y" in
  let Hin := fresh "Hin" in
  intros x y Hin; apply in_grid_iff in Hin; cbv beta; intuition lia.

Lemma scanned_region_ext (R R' : Z -> Z -> Prop) f upd (m0 m : BitGrid) :
  (forall x y, in_grid m0 x y = true -> (R x y <-> R' x y)) ->
  scanned R f upd m0 m -> scanned R' f upd m0 m.
Proof.
  intros Hext (Hw & Hh & Hwf & Hg). repeat split; try assumption.
  - intros HR. apply Hg; [assumption | apply Hext; assumption].
  - intros HR. apply Hg; [assumption|]. intros HR0. apply HR, Hext; assumption.
Qed.

Lemma scanned_start f upd (m0 : BitGrid) :
  wf_grid m0 -> scanned (fun _ _ => False) f upd m0 m0.
Proof.
  intros Hwf. repeat split; try assumption; try reflexivity. intros [].
Qed.

(** One more pixel joins the scanned region. *)
Lemma scanned_pixel (R : Z -> Z -> Prop) f upd (m0 m : BitGrid) step (x y : Z) :
  scanned R f upd m0 m -> in_grid m0 x y = true -> ~ R x y ->
  writes_pixel step x y (upd (f x y)) ->
  scanned (fun x' y' => R x' y' \/ (x' = x /\ y' = y)) f upd m0 (step m).
Proof.
  intros (Hw & Hh & Hwf & Hg) Hin HnR Hstep.
  destruct (Hstep m Hwf) as (Hwf' & Hw' & Hh' & Hsame & Hother).
  { rewrite (in_grid_dims m m0) by assumption. exact Hin. }
  repeat split; try congruence.
  - intros [HR | [-> ->]].
    + rewrite Hother by (intros E; inversion E; subst; contradiction).
      apply Hg; assumption.
    + rewrite Hsame. f_equal. apply Hg; assumption.
  - intros Hn. rewrite Hother by (intros E; inversion E; subst; apply Hn; right; split; reflexivity).
    apply Hg; [assumption|]. intros HR. apply Hn. left. exact HR.
Qed.

(** The three pixel writes of lines 214, 218 and 222. *)
Lemma writes_pixel_seed (x y : Z) (fl : bool) :
  writes_pixel (fun m => set m x y (negb fl)) x y (combination_rule 0 false fl).
Proof.
  intros m Hwf Hin. split; [apply wf_set; exact Hwf|].
  split; [apply w_set|]. split; [apply h_set|].
  split; [apply get_set_same; assumption|].
  intros x' y' Hne. apply get_set_other. exact Hne.
Qed.

Lemma writes_pixel_remove (k x y : Z) (fl : bool) :
  k <> 0 ->
  writes_pixel (fun m => if fl then set m x y false else m) x y (combination_rule k true fl).
Proof.
  intros Hk m Hwf Hin. unfold combination_rule. replace (k =? 0) with false by lia.
  destruct fl; cbn [negb].
  - split; [apply wf_set; exact Hwf|].
    split; [apply w_set|]. split; [apply h_set|].
    split; [rewrite get_set_false; symmetry; apply andb_false_r|].
    intros x' y' Hne. apply get_set_other. exact Hne.
  - repeat split; try assumption. symmetry. apply andb_true_r.
Qed.

Lemma writes_pixel_add (k x y : Z) (fl : bool) :
  k <> 0 ->
  writes_pixel (fun m => if negb fl then set m x y true else m) x y (combination_rule k false fl).
Proof.
  intros Hk m Hwf Hin. unfold combination_rule. replace (k =? 0) with false by lia.
  destruct fl; cbn [negb].
  - repeat split; try assumption. symmetry. apply orb_false_r.
  - split; [apply wf_set; exact Hwf|].
    split; [apply w_set|]. split; [apply h_set|].
    split; [rewrite get_set_same by assumption; symmetry; apply orb_true_r|].
    intros x' y' Hne. apply get_set_other. exact Hne.
Qed.

Lemma combination_rule_seed (inv fl old : bool) :
  combination_rule 0 inv fl old = combination_rule 0 false fl old.
Proof. reflexivity. Qed.

(** A row of pixel writes, whichever of the three loops runs. *)
Lemma scanned_row (R : Z -> Z -> Prop) f upd (m0 m : BitGrid)
    (step : BitGrid -> Z -> BitGrid) (boff_x bsize_x y : Z) :
  scanned R f upd m0 m ->
  0 <= boff_x -> boff_x + bsize_x <= w m0 -> 0 <= y < h m0 ->
  (forall i, 0 <= i < bsize_x -> ~ R (boff_x + i) y) ->
  (forall i, 0 <= i < bsize_x ->
     writes_pixel (fun m => step m i) (boff_x + i) y (upd (f (boff_x + i) y))) ->
  scanned (fun x' y' => R x' y' \/ (y' = y /\ boff_x <= x' < boff_x + bsize_x)) f upd m0
          (for_int bsize_x step m).
Proof.
  intros Hsc Hbx Hbw Hy Hfresh Hstep.
  pose proof (for_int_ind
    (fun i m1 => scanned (fun x' y' => R x' y' \/ (y' = y /\ boff_x <= x' < boff_x + i))
                         f upd m0 m1)
    bsize_x step m) as H.
  cbv beta in H. eapply scanned_region_ext; [|apply H].
  - same_region.
  - eapply scanned_region_ext; [|exact Hsc]. same_region.
  - intros i m1 Hi Hm1.
    eapply scanned_region_ext;
      [|apply (scanned_pixel _ f upd m0 m1 (fun m => step m i) (boff_x + i) y Hm1)].
    + same_region.
    + apply in_grid_iff. lia.
    + intros [HR | HS]; [apply (Hfresh i Hi HR) | lia].
    + apply Hstep. exact Hi.
Qed.

Lemma scanned_apply_row_ndv (R : Z -> Z -> Prop) f (k : Z) (inv : bool) (m0 m : BitGrid)
    (row_ndv : list bool) (boff_x bsize_x y : Z) :
  scanned R f (combination_rule k inv) m0 m ->
  0 <= k -> 0 <= boff_x -> boff_x + bsize_x <= w m0 -> 0 <= y < h m0 ->
  (forall i, 0 <= i < bsize_x -> ~ R (boff_x + i) y) ->
  (forall i, 0 <= i < bsize_x -> load row_ndv i = f (boff_x + i) y) ->
  scanned (fun x' y' => R x' y' \/ (y' = y /\ boff_x <= x' < boff_x + bsize_x)) f
          (combination_rule k inv) m0
          (apply_row_ndv k inv row_ndv boff_x bsize_x y m).
Proof.
  intros Hsc Hk Hbx Hbw Hy Hfresh Hrow. unfold apply_row_ndv.
  destruct (k =? 0) eqn:Ek; [|destruct inv].
  - assert (k = 0) by lia. subst k.
    apply scanned_row; try assumption.
    intros i Hi. rewrite (Hrow i Hi).
    intros m1 Hwf Hin. rewrite combination_rule_seed. apply writes_pixel_seed; assumption.
  - apply scanned_row; try assumption.
    intros i Hi. rewrite (Hrow i Hi). apply writes_pixel_remove. lia.
  - apply scanned_row; try assumption.
    intros i Hi. rewrite (Hrow i Hi). apply writes_pixel_add. lia.
Qed.

(** The flags [arrayCheckNdv] leaves in the row buffer. *)
Lemma arrayCheckNdv_load {T : Type} (is_ndv : T -> bool) (in_data : list T)
    (mask_out : list bool) (n : Z) (s : Z -> T) :
  (Z.to_nat n <= length mask_out)%nat ->
  (forall i, 0 <= i < n -> in_data !! Z.to_nat i = Some (s i)) ->
  forall i, 0 <= i < n -> load (arrayCheckNdv is_ndv in_data mask_out n) i = is_ndv (s i).
Proof.
  intros Hlen Hin. unfold arrayCheckNdv.
  pose proof (for_int_ind
    (fun i out => length out = length mask_out /\
                  forall j, 0 <= j < i -> load out j = is_ndv (s j))
    n (fun out i => match in_data !! Z.to_nat i with
                    | Some v => store out i (is_ndv v)
                    | None => out
                    end) mask_out) as H.
  cbv beta in H. destruct H as [_ Hv].
  - split; [reflexivity | intros j Hj; lia].
  - intros i out Hi [Hl Hv]. rewrite (Hin i Hi). split; [rewrite length_store; exact Hl|].
    intros j Hj. destruct (Z.eq_dec j i) as [->|Hne].
    + apply load_store_same; lia.
    + rewrite load_store_other by lia. apply Hv. lia.
  - intros i Hi. apply Hv. lia.
Qed.

(** A buffer of equal rows, read at row [j], column [i]. *)
Lemma lookup_flat_map_rows {T : Type} (row : nat -> list T) (n : nat) :
  (forall j, length (row j) = n) ->
  forall (m s j i : nat), (j < m)%nat -> (i < n)%nat ->
    flat_map row (seq s m) !! (j * n + i)%nat = row (s + j)%nat !! i.
Proof.
  intros Hrow. induction m as [|m IH]; intros s j i Hj Hi; [lia|].
  cbn [seq flat_map]. destruct j as [|j].
  - rewrite Nat.add_0_r. cbn [Nat.mul Nat.add].
    apply lookup_app_l. rewrite Hrow. exact Hi.
  - replace (S j * n + i)%nat with (length (row s) + (j * n + i))%nat
      by (rewrite Hrow; lia).
    rewrite lookup_app_r by lia.
    replace (length (row s) + (j * n + i) - length (row s))%nat with (j * n + i)%nat by lia.
    rewrite IH by lia. f_equal. f_equal. lia.
Qed.

(** The sample the read pointer finds [i] cells into row [j] of a block. *)
Lemma GDALRasterIO_lookup {T : Type} (sample : Z -> Z -> T) (xoff yoff xsize ysize i j : Z) :
  0 <= i < xsize -> 0 <= j < ysize ->
  drop (Z.to_nat (j * xsize)) (GDALRasterIO sample xoff yoff xsize ysize) !! Z.to_nat i =
  Some (sample (xoff + i) (yoff + j)).
Proof.
  intros Hi Hj. rewrite lookup_drop. unfold GDALRasterIO.
  replace (Z.to_nat (j * xsize) + Z.to_nat i)%nat
    with (Z.to_nat j * Z.to_nat xsize + Z.to_nat i)%nat by nia.
  rewrite (lookup_flat_map_rows _ (Z.to_nat xsize)); try lia.
  - rewrite list_lookup_fmap, lookup_seq_lt by lia. cbn.
    f_equal. f_equal; lia.
  - intros j0. rewrite length_map, length_seq. reflexivity.
Qed.

(** The rows of one block join the scanned region. *)
Lemma scanned_block (R : Z -> Z -> Prop) (ndv_def : NdvDef) (k : Z) (band : GDALRasterBand)
    (m0 m : BitGrid) (boff_x boff_y bsize_x bsize_y : Z) :
  scanned R (pixel_is_ndv ndv_def k band) (combination_rule k (isInvert ndv_def)) m0 m ->
  0 <= k -> 0 <= boff_x -> 0 <= boff_y ->
  0 <= bsize_x <= blocksize_x band ->
  boff_x + bsize_x <= w m0 -> boff_y + bsize_y <= h m0 ->
  (forall x y, boff_x <= x < boff_x + bsize_x -> boff_y <= y < boff_y + bsize_y -> ~ R x y) ->
  scanned (fun x y => R x y \/
                      (boff_y <= y < boff_y + bsize_y /\ boff_x <= x < boff_x + bsize_x))
    (pixel_is_ndv ndv_def k band) (combination_rule k (isInvert ndv_def)) m0
    (scan_block_rows ndv_def k (blocksize_x band)
       (read_block band boff_x boff_y bsize_x bsize_y) boff_x boff_y bsize_x bsize_y m).
Proof.
  intros Hsc Hk Hbx Hby Hsx Hw Hh Hfresh. unfold scan_block_rows.
  set (body := fun (st : Z * BitGrid) (j : Z) => _).
  pose proof (for_int_ind
    (fun j st => fst st = j * bsize_x /\
       scanned (fun x y => R x y \/ (boff_y <= y < boff_y + j /\ boff_x <= x < boff_x + bsize_x))
         (pixel_is_ndv ndv_def k band) (combination_rule k (isInvert ndv_def)) m0 (snd st))
    bsize_y body (0, m)) as H.
  cbv beta in H. destruct H as [_ Hfin].
  - cbn [fst snd]. split; [lia|].
    eapply scanned_region_ext; [|exact Hsc]. same_region.
  - intros j [p m1] Hj [Hp Hm1]. cbn [fst snd] in Hp, Hm1. subst p.
    unfold body. cbn [fst snd]. split; [lia|].
    eapply scanned_region_ext;
      [|apply (scanned_apply_row_ndv _ _ k (isInvert ndv_def) m0 m1 _ boff_x bsize_x
                 (j + boff_y) Hm1)]; try lia.
    + same_region.
    + intros i Hi [HR | HS]; [|lia]. revert HR. apply Hfresh; lia.
    + intros i Hi. unfold read_block, pixel_is_ndv.
      assert (Hlen : (Z.to_nat bsize_x <= length (new_bool_array (blocksize_x band)))%nat).
      { unfold new_bool_array. rewrite repeat_length. lia. }
      destruct (band_type band).
      * rewrite (arrayCheckNdv_load _ _ _ bsize_x
                   (fun i => sample_8bit band (boff_x + i) (boff_y + j))) by
          (try exact Hlen; try exact Hi; intros i0 Hi0; apply GDALRasterIO_lookup; lia).
        do 2 f_equal. lia.
      * rewrite (arrayCheckNdv_load _ _ _ bsize_x
                   (fun i => sample_dbl band (boff_x + i) (boff_y + j))) by
          (try exact Hlen; try exact Hi; intros i0 Hi0; apply GDALRasterIO_lookup; lia).
        do 2 f_equal. lia.
  - eapply scanned_region_ext; [|exact Hfin]. same_region.
Qed.

(** One band: the scan ends, and it applies the rule to every pixel. *)
Lemma scan_band_spec (ndv_def : NdvDef) (k : Z) (band : GDALRasterBand) (m : BitGrid) :
  0 <= k -> 0 < blocksize_x band -> 0 < blocksize_y band -> wf_grid m ->
  exists m', scan_band ndv_def k band (w m) (h m) m = Some m' /\
    w m' = w m /\ h m' = h m /\ wf_grid m' /\
    forall x y, in_grid m x y = true ->
      get m' x y = combination_rule k (isInvert ndv_def) (pixel_is_ndv ndv_def k band x y)
                     (get m x y).
Proof.
  intros Hk Hbx Hby Hwf. unfold scan_band.
  set (f := pixel_is_ndv ndv_def k band). set (upd := combination_rule k (isInvert ndv_def)).
  destruct (for_blocks_ind
    (fun o m1 => scanned (fun x y => y < o) f upd m m1)
    (h m) (blocksize_y band)
    (fun mask boff_y =>
       for_blocks (Z.to_nat (w m)) 0 (w m) (blocksize_x band)
         (fun mask boff_x =>
            Some (scan_block_rows ndv_def k (blocksize_x band)
                    (read_block band boff_x boff_y
                       (clip_block (blocksize_x band) boff_x (w m))
                       (clip_block (blocksize_y band) boff_y (h m)))
                    boff_x boff_y
                    (clip_block (blocksize_x band) boff_x (w m))
                    (clip_block (blocksize_y band) boff_y (h m)) mask))
         mask) Hby) with (Z.to_nat (h m)) 0 m as (m' & o' & Hrun & Ho' & Hm').
  - intros boff_y m1 Hy Hm1.
    pose proof (clip_block_bounds (blocksize_y band) boff_y (h m) Hby Hy) as (Hcy1 & Hcy2 & Hcy3 & Hcy4).
    set (bsize_y := clip_block (blocksize_y band) boff_y (h m)) in *.
    destruct (for_blocks_ind
      (fun o m2 => scanned (fun x y => y < boff_y \/ (boff_y <= y < boff_y + bsize_y /\ x < o))
                     f upd m m2)
      (w m) (blocksize_x band)
      (fun mask boff_x =>
         Some (scan_block_rows ndv_def k (blocksize_x band)
                 (read_block band boff_x boff_y
                    (clip_block (blocksize_x band) boff_x (w m)) bsize_y)
                 boff_x boff_y (clip_block (blocksize_x band) boff_x (w m)) bsize_y mask))
      Hbx) with (Z.to_nat (w m)) 0 m1 as (m2 & o2 & Hrun2 & Ho2 & Hm2).
    + intros boff_x m2 Hx Hm2.
      pose proof (clip_block_bounds (blocksize_x band) boff_x (w m) Hbx Hx) as (Hcx1 & Hcx2 & Hcx3 & Hcx4).
      set (bsize_x := clip_block (blocksize_x band) boff_x (w m)) in *.
      eexists. split; [reflexivity|].
      eapply scanned_region_ext;
        [|apply (scanned_block _ ndv_def k band m m2 boff_x boff_y bsize_x bsize_y Hm2)];
        try lia.
      same_region.
    + lia.
    + lia.
    + eapply scanned_region_ext; [|exact Hm1]. same_region.
    + exists m2. split; [exact Hrun2|].
      eapply scanned_region_ext; [|exact Hm2]. same_region.
  - lia.
  - lia.
  - eapply scanned_region_ext; [|apply scanned_start; exact Hwf].
    same_region.
  - exists m'. split; [exact Hrun|]. destruct Hm' as (Hw' & Hh' & Hwf' & Hg).
    repeat split; try assumption.
    intros x y Hin. apply Hg; [exact Hin|]. apply in_grid_iff in Hin. lia.
Qed.

(** ** The band loop *)

Lemma band_loop_app (ds : GDALDataset) (ndv_def : NdvDef) (l l' : list Z) :
  forall (k : Z) (m : BitGrid),
    band_loop ds ndv_def k (l ++ l') m =
    match band_loop ds ndv_def k l m with
    | Returns m1 => band_loop ds ndv_def (k + Z.of_nat (length l)) l' m1
    | FatalError msg => FatalError msg
    | Diverges => Diverges
    end.
Proof.
  induction l as [|b l IH]; intros k m.
  - cbn [app band_loop length]. f_equal. lia.
  - cbn [app band_loop length].
    destruct ((b <? 1) || (b >? GDALGetRasterCount ds)); [reflexivity|].
    destruct (scan_band _ _ _ _ _ _); [|reflexivity].
    rewrite IH. replace (k + 1 + Z.of_nat (length l)) with (k + Z.of_nat (S (length l))) by lia.
    reflexivity.
Qed.

Lemma band_in_range_test (ds : GDALDataset) (band_idx : Z) :
  (band_idx <? 1) || (band_idx >? GDALGetRasterCount ds) = false <->
  band_in_range ds band_idx.
Proof. unfold band_in_range. lia. Qed.

Lemma GDALGetRasterBand_In (ds : GDALDataset) (band_idx : Z) :
  band_in_range ds band_idx -> In (GDALGetRasterBand ds band_idx) (bands ds).
Proof.
  unfold band_in_range, GDALGetRasterCount, GDALGetRasterBand. intros H.
  apply nth_In. lia.
Qed.

(** One round of the band loop on a band the data set has. *)
Lemma band_loop_step (ds : GDALDataset) (ndv_def : NdvDef) (k band_idx : Z) (m : BitGrid) :
  blocks_positive ds -> band_in_range ds band_idx -> 0 <= k ->
  wf_grid m -> w m = XSize ds -> h m = YSize ds ->
  exists m',
    scan_band ndv_def k (GDALGetRasterBand ds band_idx) (XSize ds) (YSize ds) m = Some m' /\
    wf_grid m' /\ w m' = XSize ds /\ h m' = YSize ds /\
    forall x y, in_grid m x y = true ->
      get m' x y =
      combination_rule k (isInvert ndv_def)
        (pixel_is_ndv ndv_def k (GDALGetRasterBand ds band_idx) x y) (get m x y).
Proof.
  intros Hpos Hrange Hk Hwf Hw Hh.
  destruct (Hpos _ (GDALGetRasterBand_In ds band_idx Hrange)) as [Hbx Hby].
  destruct (scan_band_spec ndv_def k (GDALGetRasterBand ds band_idx) m Hk Hbx Hby Hwf)
    as (m' & Hrun & Hw' & Hh' & Hwf' & Hg).
  rewrite Hw, Hh in Hrun. exists m'. repeat split; try congruence. exact Hg.
Qed.

(** With every band in range the loop returns a mask of the same size. *)
Lemma band_loop_returns (ds : GDALDataset) (ndv_def : NdvDef) (l : list Z) :
  blocks_positive ds -> Forall (band_in_range ds) l ->
  forall (k : Z) (m : BitGrid),
    0 <= k -> wf_grid m -> w m = XSize ds -> h m = YSize ds ->
    exists m', band_loop ds ndv_def k l m = Returns m' /\
               wf_grid m' /\ w m' = XSize ds /\ h m' = YSize ds.
Proof.
  intros Hpos Hall. induction Hall as [|b l Hb Hl IH]; intros k m Hk Hwf Hw Hh.
  - exists m. repeat split; assumption.
  - cbn [band_loop]. rewrite (proj2 (band_in_range_test ds b) Hb).
    destruct (band_loop_step ds ndv_def k b m Hpos Hb Hk Hwf Hw Hh)
      as (m1 & Hrun & Hwf1 & Hw1 & Hh1 & _).
    rewrite Hrun. apply IH; [lia | assumption..].
Qed.

(** A band number out of range stops the loop in [fatal_error], whatever
    came before it. *)
Lemma band_loop_fatal (ds : GDALDataset) (ndv_def : NdvDef) (l : list Z) :
  blocks_positive ds -> Exists (fun b => ~ band_in_range ds b) l ->
  forall (k : Z) (m : BitGrid),
    0 <= k -> wf_grid m -> w m = XSize ds -> h m = YSize ds ->
    band_loop ds ndv_def k l m = FatalError "bandid out of range".
Proof.
  intros Hpos. induction l as [|b l IH]; intros Hex k m Hk Hwf Hw Hh.
  - inversion Hex.
  - cbn [band_loop].
    destruct ((b <? 1) || (b >? GDALGetRasterCount ds)) eqn:Etest; [reflexivity|].
    apply band_in_range_test in Etest.
    destruct (band_loop_step ds ndv_def k b m Hpos Etest Hk Hwf Hw Hh)
      as (m1 & Hrun & Hwf1 & Hw1 & Hh1 & _).
    rewrite Hrun. apply IH; try assumption; try lia.
    inversion Hex; subst; [contradiction | assumption].
Qed.

Lemma initial_mask (ds : GDALDataset) :
  wf_grid (zero (BitGrid_new (XSize ds) (YSize ds))) /\
  w (zero (BitGrid_new (XSize ds) (YSize ds))) = XSize ds /\
  h (zero (BitGrid_new (XSize ds) (YSize ds))) = YSize ds.
Proof. split; [apply wf_zero, wf_new | split; reflexivity]. Qed.

(** ** The mask builder: the claims *)

(** C2: the combination rule.  Let the band list be [l] followed by
    [band_idx], all in range.  The build on [l] returns a mask [m], the
    build on the longer list a mask [m'], and at every pixel: if
    [band_idx] stands at position 0 the pixel is included iff it is not
    no-data in that band; at a later position with invert off the pixel is
    included iff it was or it is not no-data (pixels are only added); with
    invert on iff it was and it is not no-data (pixels are only removed). *)
Theorem get_bitgrid_for_dataset_combination
    (ds : GDALDataset) (ndv_def : NdvDef) (l : list Z) (band_idx : Z) :
  blocks_positive ds ->
  Forall (band_in_range ds) (l ++ [band_idx]) ->
  exists m m',
    get_bitgrid_for_dataset ds l ndv_def = Returns m /\
    get_bitgrid_for_dataset ds (l ++ [band_idx]) ndv_def = Returns m' /\
    w m' = XSize ds /\ h m' = YSize ds /\
    forall x y, in_grid m' x y = true ->
      let is_ndv :=
        pixel_is_ndv ndv_def (Z.of_nat (length l)) (GDALGetRasterBand ds band_idx) x y in
      (l = [] -> get m' x y = negb is_ndv) /\
      (l <> [] -> isInvert ndv_def = false ->
         get m' x y = get m x y || negb is_ndv /\
         (get m x y = true -> get m' x y = true)) /\
      (l <> [] -> isInvert ndv_def = true ->
         get m' x y = get m x y && negb is_ndv /\
         (get m x y = false -> get m' x y = false)).
Proof.
  intros Hpos Hall. apply Forall_app in Hall. destruct Hall as [Hl Hb].
  inversion Hb as [|b0 l0 Hb0 _]; subst.
  destruct (initial_mask ds) as (Hwf0 & Hw0 & Hh0).
  destruct (band_loop_returns ds ndv_def l Hpos Hl 0 _ ltac:(lia) Hwf0 Hw0 Hh0)
    as (m & Hm & Hwf & Hw & Hh).
  destruct (band_loop_step ds ndv_def (Z.of_nat (length l)) band_idx m Hpos Hb0
              ltac:(lia) Hwf Hw Hh) as (m' & Hrun & Hwf' & Hw' & Hh' & Hg).
  exists m, m'. split; [exact Hm|]. split.
  - unfold get_bitgrid_for_dataset in *. rewrite band_loop_app, Hm.
    rewrite Z.add_0_l. cbn [band_loop].
    rewrite (proj2 (band_in_range_test ds band_idx) Hb0), Hrun.
    reflexivity.
  - split; [exact Hw'|]. split; [exact Hh'|]. intros x y Hin is_ndv.
    assert (Hin0 : in_grid m x y = true).
    { rewrite <- Hin. apply in_grid_dims; congruence. }
    specialize (Hg x y Hin0). fold is_ndv in Hg. unfold combination_rule in Hg.
    split; [|split].
    + intros ->. exact Hg.
    + intros Hne Hinv. destruct l as [|b l]; [contradiction|].
      rewrite (proj2 (Z.eqb_neq _ 0)) in Hg by (cbn [length]; lia).
      rewrite Hinv in Hg. split; [exact Hg|]. intros E. rewrite Hg, E. reflexivity.
    + intros Hne Hinv. destruct l as [|b l]; [contradiction|].
      rewrite (proj2 (Z.eqb_neq _ 0)) in Hg by (cbn [length]; lia).
      rewrite Hinv in Hg. split; [exact Hg|]. intros E. rewrite Hg, E. reflexivity.
Qed.

(** C5: a band number outside [1, band_count] anywhere in the band list
    makes the build stop in [fatal_error]; no mask is returned, also when
    the bands before it were in range and have been scanned. *)
Theorem get_bitgrid_for_dataset_band_out_of_range
    (ds : GDALDataset) (ndv_def : NdvDef) (bandlist : list Z) (band_idx : Z) :
  blocks_positive ds ->
  In band_idx bandlist ->
  band_idx < 1 \/ band_idx > GDALGetRasterCount ds ->
  get_bitgrid_for_dataset ds bandlist ndv_def = FatalError "bandid out of range" /\
  forall mask, get_bitgrid_for_dataset ds bandlist ndv_def <> Returns mask.
Proof.
  intros Hpos Hin Hout.
  destruct (initial_mask ds) as (Hwf0 & Hw0 & Hh0).
  assert (E : get_bitgrid_for_dataset ds bandlist ndv_def = FatalError "bandid out of range").
  { unfold get_bitgrid_for_dataset. apply band_loop_fatal; try assumption; try lia.
    apply Exists_exists. exists band_idx. split; [apply list_elem_of_In; exact Hin|].
    unfold band_in_range. lia. }
  split; [exact E|]. intros mask. rewrite E. discriminate.
Qed.

(** C9: with an empty band list the build returns the zeroed grid of the
    size of the raster: every pixel is false. *)
Theorem get_bitgrid_for_dataset_no_bands (ds : GDALDataset) (ndv_def : NdvDef) :
  exists mask,
    get_bitgrid_for_dataset ds [] ndv_def = Returns mask /\
    w mask = XSize ds /\ h mask = YSize ds /\
    forall x y, get mask x y = false.
Proof.
  exists (zero (BitGrid_new (XSize ds) (YSize ds))).
  split; [reflexivity|]. split; [reflexivity|]. split; [reflexivity|].
  intros x y. apply get_zero.
Qed.

(** ** The mask builder on the seed example *)

Lemma seed_blocks_positive : blocks_positive seed_dataset.
Proof.
  intros band Hin. cbn in Hin.
  destruct Hin as [<- | [<- | []]]; cbn; lia.
Defined.

Lemma seed_bands_in_range : Forall (band_in_range seed_dataset) ([1] ++ [2]).
Proof.
  cbn [app].
  constructor; [unfold band_in_range, GDALGetRasterCount, seed_dataset; cbn [bands length]; lia|].
  constructor; [unfold band_in_range, GDALGetRasterCount, seed_dataset; cbn [bands length]; lia|].
  constructor.
Defined.

Lemma get_bitgrid_for_dataset_combination_witness :
  exists m m',
    get_bitgrid_for_dataset seed_dataset [1] (ndv_is 5 false) = Returns m /\
    get_bitgrid_for_dataset seed_dataset ([1] ++ [2]) (ndv_is 5 false) = Returns m' /\
    w m' = XSize seed_dataset /\ h m' = YSize seed_dataset /\
    forall x y, in_grid m' x y = true ->
      let is_ndv :=
        pixel_is_ndv (ndv_is 5 false) (Z.of_nat (length [1]))
                     (GDALGetRasterBand seed_dataset 2) x y in
      ([1] = [] -> get m' x y = negb is_ndv) /\
      ([1] <> [] -> isInvert (ndv_is 5 false) = false ->
         get m' x y = get m x y || negb is_ndv /\
         (get m x y = true -> get m' x y = true)) /\
      ([1] <> [] -> isInvert (ndv_is 5 false) = true ->
         get m' x y = get m x y && negb is_ndv /\
         (get m x y = false -> get m' x y = false)).
Proof.
  apply (get_bitgrid_for_dataset_combination seed_dataset (ndv_is 5 false) [1] 2).
  - exact seed_blocks_positive.
  - exact seed_bands_in_range.
Defined.

(** The seed example of section 8, invert off: the mask is band 1 has data
    or band 2 has data, here every pixel. *)
Example seed_mask :
  outcome_rows (get_bitgrid_for_dataset seed_dataset [1; 2] (ndv_is 5 false))
  = Some [[true; true]; [true; true]] /\
  outcome_rows (get_bitgrid_for_dataset seed_dataset [1] (ndv_is 5 false))
  = Some [[false; true]; [true; false]] /\
  outcome_rows (get_bitgrid_for_dataset seed_dataset [1; 2] (ndv_is 5 true))
  = Some [[false; false]; [false; false]].
Proof. repeat split; reflexivity. Qed.

Lemma get_bitgrid_for_dataset_band_out_of_range_witness :
  In 3 [1; 3; 2] /\ (3 < 1 \/ 3 > GDALGetRasterCount seed_dataset) /\
  get_bitgrid_for_dataset seed_dataset [1; 3; 2] (ndv_is 5 false)
  = FatalError "bandid out of range" /\
  forall mask,
    get_bitgrid_for_dataset seed_dataset [1; 3; 2] (ndv_is 5 false) <> Returns mask.
Proof.
  assert (Hin : In 3 [1; 3; 2]) by (cbn; tauto).
  assert (Hout : 3 < 1 \/ 3 > GDALGetRasterCount seed_dataset).
  { right. unfold GDALGetRasterCount, seed_dataset. cbn [bands length]. lia. }
  split; [exact Hin|]. split; [exact Hout|].
  apply (get_bitgrid_for_dataset_band_out_of_range seed_dataset (ndv_is 5 false)
           [1; 3; 2] 3 seed_blocks_positive Hin Hout).
Defined.

(** ** The other readers of mask.cc *)

(** The check of line 47 comes before any block is read. *)
Lemma read_dataset_8bit_band_out_of_range (ds : GDALDataset) (band_idx : Z) (usage : list Z) :
  band_idx < 1 \/ band_idx > GDALGetRasterCount ds ->
  read_dataset_8bit ds band_idx usage = FatalError "bandid out of range".
Proof.
  intros Hout. unfold read_dataset_8bit.
  replace ((band_idx <? 1) || (band_idx >? GDALGetRasterCount ds)) with true by lia.
  reflexivity.
Qed.

Example read_dataset_8bit_seed :
  read_dataset_8bit seed_dataset 1 (repeat 7 8%nat)
  = Returns ([5; 1; 2; 5], [0; 1; 1; 0; 0; 1; 0; 0]) /\
  read_dataset_8bit seed_dataset 3 (repeat 7 8%nat) = FatalError "bandid out of range".
Proof. split; reflexivity. Qed.

Example get_bitgrid_for_8bit_raster_seed :
  rows_of_grid (get_bitgrid_for_8bit_raster 3 2 [1; 2; 3; 2; 2; 1] 2)
  = [[false; true; false]; [true; true; false]].
Proof. reflexivity. Qed.

(** ** Bounding boxes and the ring relation *)

Lemma Qgtb_iff (a b : Q) : Qgtb a b = true <-> ~ (a <= b)%Q.
Proof.
  unfold Qgtb, Qltb. rewrite negb_true_iff, <- not_true_iff_false, Qle_bool_iff.
  reflexivity.
Qed.

Lemma not_extents_overlap (lo1 hi1 lo2 hi2 : Q) :
  ~ extents_overlap lo1 hi1 lo2 hi2 <-> Qgtb lo1 hi2 = true \/ Qgtb lo2 hi1 = true.
Proof.
  unfold extents_overlap. rewrite !Qgtb_iff. split.
  - intros H. destruct (Qlt_le_dec hi2 lo1) as [Hlt|Hle].
    + left. apply Qlt_not_le. exact Hlt.
    + right. intros Hle2. apply H. split; assumption.
  - intros [H|H] [H1 H2]; contradiction.
Qed.

(** [is_disjoint] decides what the specification calls disjoint boxes. *)
Lemma is_disjoint_iff (bb1 bb2 : Bbox) :
  is_disjoint bb1 bb2 = true <-> boxes_disjoint bb1 bb2.
Proof.
  unfold is_disjoint, boxes_disjoint. rewrite !orb_true_iff, !not_extents_overlap. tauto.
Qed.

(** The box of a ring contains each of its points. *)
Lemma Qltb_cases (a b : Q) :
  (Qltb a b = true /\ (a < b)%Q) \/ (Qltb a b = false /\ (b <= a)%Q).
Proof.
  unfold Qltb. destruct (Qle_bool b a) eqn:E.
  - right. split; [reflexivity | apply Qle_bool_iff; exact E].
  - left. split; [reflexivity|]. apply Qnot_le_lt. intros H.
    apply Qle_bool_iff in H. congruence.
Qed.

Lemma expand_in_box_new (bb : Bbox) (v : Vertex Q) : in_box (expand bb v) v.
Proof.
  unfold in_box, expand, Qgtb. destruct (empty bb); cbn [empty min_x max_x min_y max_y].
  - repeat split; apply Qle_refl.
  - destruct (Qltb_cases (vx v) (min_x bb)) as [[-> H1]|[-> H1]],
             (Qltb_cases (max_x bb) (vx v)) as [[-> H2]|[-> H2]],
             (Qltb_cases (vy v) (min_y bb)) as [[-> H3]|[-> H3]],
             (Qltb_cases (max_y bb) (vy v)) as [[-> H4]|[-> H4]];
      repeat split; try apply Qle_refl; assumption.
Qed.

Lemma expand_in_box_old (bb : Bbox) (v p : Vertex Q) :
  in_box bb p -> in_box (expand bb v) p.
Proof.
  unfold in_box, expand, Qgtb. intros (He & Hx1 & Hx2 & Hy1 & Hy2). rewrite He.
  cbn [empty min_x max_x min_y max_y].
  destruct (Qltb_cases (vx v) (min_x bb)) as [[-> H1]|[-> H1]],
           (Qltb_cases (max_x bb) (vx v)) as [[-> H2]|[-> H2]],
           (Qltb_cases (vy v) (min_y bb)) as [[-> H3]|[-> H3]],
           (Qltb_cases (max_y bb) (vy v)) as [[-> H4]|[-> H4]];
    repeat split; try assumption;
    try (eapply Qle_trans; [apply Qlt_le_weak; eassumption | assumption]);
    try (eapply Qle_trans; [eassumption | apply Qlt_le_weak; assumption]).
Qed.

Lemma fold_expand_in_box (l : list (Vertex Q)) (bb : Bbox) (p : Vertex Q) :
  in_box bb p \/ In p l -> in_box (fold_left expand l bb) p.
Proof.
  revert bb. induction l as [|v l IH]; intros bb [H|H].
  - exact H.
  - destruct H.
  - cbn [fold_left]. apply IH. left. apply expand_in_box_old. exact H.
  - cbn [fold_left]. destruct H as [->|H].
    + apply IH. left. apply expand_in_box_new.
    + apply IH. right. exact H.
Qed.

Lemma getBbox_in_box (r : Ring) (p : Vertex Q) : In p (pts r) -> in_box (getBbox r) p.
Proof. intros H. apply fold_expand_in_box. right. exact H. Qed.

(** C6: two rings whose bounding boxes are disjoint (one box is empty, or
    the extents fail to overlap on some axis) are classified DISJOINT,
    whatever the segment test and the point test would say of them. *)
Theorem ring_ring_relation_disjoint_boxes
    (line_intersects_line : Vertex Q -> Vertex Q -> Vertex Q -> Vertex Q -> bool -> bool)
    (contains : Ring -> Vertex Q -> bool) (r1 r2 : Ring) :
  boxes_disjoint (getBbox r1) (getBbox r2) ->
  ring_ring_relation line_intersects_line contains r1 r2 = RINGREL_DISJOINT.
Proof.
  intros H. apply is_disjoint_iff in H. unfold ring_ring_relation. rewrite H. reflexivity.
Qed.

Lemma ring_ring_relation_disjoint_boxes_witness :
  boxes_disjoint (getBbox unit_square) (getBbox far_square) /\
  ring_ring_relation (fun _ _ _ _ _ => true) (fun _ _ => true) unit_square far_square
  = RINGREL_DISJOINT.
Proof.
  assert (H : boxes_disjoint (getBbox unit_square) (getBbox far_square)).
  { apply is_disjoint_iff. vm_compute. reflexivity. }
  split; [exact H|].
  apply (ring_ring_relation_disjoint_boxes _ _ unit_square far_square H).
Defined.

(** ** Oriented area *)

(** *** binary64 arithmetic up to the sign of zero *)




















(** *** Equality of doubles *)


















(** *** Sums of doubles *)




(** *** The shoelace sum of a reversed ring *)

Section OrientedArea.
Import Double.

















(** The seed example of section 8: the unit square has area 1, and its
    oriented area changes sign under [reverse]. *)
Example unit_square_area :
  area unit_square = Value 1%float /\
  orientedArea unit_square = Value 1%float /\
  orientedArea (reverse unit_square) = Value (-1)%float /\
  isCCW unit_square = Value true /\ isCCW (reverse unit_square) = Value false.
Proof. vm_compute. repeat split. Qed.

End OrientedArea.

(** ** Deleting a ring *)

Lemma length_deleteRing (mp : Mpoly) (idx : Z) :
  0 <= idx < Z.of_nat (length (rings mp)) ->
  length (rings (deleteRing mp idx)) = pred (length (rings mp)).
Proof.
  intros H. unfold deleteRing. cbn [rings]. rewrite length_map, length_delete.
  - lia.
  - apply lookup_lt_is_Some_2. lia.
Qed.

(** The ring at position [j] of the result is the renumbered ring that
    stood at [position_before idx j]. *)
Lemma lookup_deleteRing (mp : Mpoly) (idx : Z) (j : nat) :
  0 <= idx ->
  rings (deleteRing mp idx) !! j = renumber idx <$> rings mp !! position_before idx j.
Proof.
  intros Hidx. unfold deleteRing, position_before. cbn [rings].
  rewrite list_lookup_fmap, list_lookup_delete.
  destruct (decide (j < Z.to_nat idx)%nat) as [Hlt|Hge].
  - replace (Z.of_nat j <? idx) with true by lia. reflexivity.
  - replace (Z.of_nat j <? idx) with false by lia. reflexivity.
Qed.

(** A parent that is not the deleted ring is found at its renumbered
    position. *)
Lemma lookup_deleteRing_parent (mp : Mpoly) (idx p : Z) :
  0 <= idx -> 0 <= p -> p <> idx ->
  rings (deleteRing mp idx) !! Z.to_nat (if p >? idx then p - 1 else p) =
  renumber idx <$> rings mp !! Z.to_nat p.
Proof.
  intros Hidx Hp Hne. rewrite lookup_deleteRing by exact Hidx. unfold position_before.
  destruct (Z.gtb_spec p idx) as [Hgt|Hle].
  - rewrite (proj2 (Z.ltb_ge _ _)) by lia. do 2 f_equal. lia.
  - rewrite (proj2 (Z.ltb_lt _ _)) by lia. reflexivity.
Qed.

Lemma pts_renumber (idx : Z) (r : Ring) : pts (renumber idx r) = pts r.
Proof.
  unfold renumber. destruct (is_hole r), (parent_id r >? idx), (parent_id r =? idx);
    reflexivity.
Qed.

(** C7: after [deleteRing(idx)] a remaining hole whose [parent_id]
    exceeded [idx] has it decremented by exactly 1, a remaining hole whose
    [parent_id] was below [idx] keeps it, no ring that referred to the
    deleted ring remains a hole, and the [parent_id] of a remaining hole
    finds the points of the ring it found before. *)
Theorem deleteRing_renumbers (mp : Mpoly) (idx : Z) (j : nat) (r r' : Ring) :
  0 <= idx < Z.of_nat (length (rings mp)) ->
  rings mp !! position_before idx j = Some r ->
  rings (deleteRing mp idx) !! j = Some r' ->
  pts r' = pts r /\
  (is_hole r = true -> parent_id r > idx ->
     is_hole r' = true /\ parent_id r' = parent_id r - 1) /\
  (is_hole r = true -> parent_id r < idx ->
     is_hole r' = true /\ parent_id r' = parent_id r) /\
  (is_hole r' = true -> is_hole r = true /\ parent_id r <> idx) /\
  (is_hole r' = true -> 0 <= parent_id r ->
     pts <$> rings (deleteRing mp idx) !! Z.to_nat (parent_id r') =
     pts <$> rings mp !! Z.to_nat (parent_id r)).
Proof.
  intros Hidx Hr Hr'. rewrite lookup_deleteRing, Hr in Hr' by lia.
  cbn in Hr'. inversion Hr' as [Er']. clear Hr'.
  split; [apply pts_renumber|].
  assert (Hhole : is_hole (renumber idx r) = true ->
                  is_hole r = true /\ parent_id r <> idx /\
                  parent_id (renumber idx r) =
                  (if parent_id r >? idx then parent_id r - 1 else parent_id r)).
  { unfold renumber. destruct (is_hole r) eqn:Eh; [|intros H; congruence].
    destruct (Z.gtb_spec (parent_id r) idx) as [Hgt|Hle]; cbn [is_hole parent_id].
    - intros _. repeat split; lia.
    - destruct (Z.eqb_spec (parent_id r) idx) as [Heq|Hne]; cbn [is_hole parent_id].
      + intros H; discriminate H.
      + intros _. repeat split. exact Hne. }
  split; [|split; [|split]].
  - intros Hh Hgt. unfold renumber. rewrite Hh.
    rewrite (proj2 (Z.gtb_lt _ _)) by lia. split; reflexivity.
  - intros Hh Hlt. unfold renumber. rewrite Hh.
    destruct (Z.gtb_spec (parent_id r) idx) as [Hgt|Hle]; [lia|].
    destruct (Z.eqb_spec (parent_id r) idx) as [Heq|Hne]; [lia|].
    split; [exact Hh | reflexivity].
  - intros Hh. destruct (Hhole Hh) as (H1 & H2 & _). split; assumption.
  - intros Hh Hp. destruct (Hhole Hh) as (_ & Hne & Hpar). rewrite Hpar.
    rewrite lookup_deleteRing_parent by lia.
    destruct (rings mp !! Z.to_nat (parent_id r)) as [q|]; [|reflexivity].
    cbn. f_equal. apply pts_renumber.
Qed.

Lemma deleteRing_renumbers_witness :
  let r := mkRing [vertexQ 4 4] true 3 in
  let r' := mkRing [vertexQ 4 4] true 2 in
  rings example_mpoly !! position_before 1 3 = Some r /\
  rings (deleteRing example_mpoly 1) !! 3%nat = Some r' /\
  pts r' = pts r /\
  (is_hole r = true -> parent_id r > 1 ->
     is_hole r' = true /\ parent_id r' = parent_id r - 1) /\
  (is_hole r = true -> parent_id r < 1 ->
     is_hole r' = true /\ parent_id r' = parent_id r) /\
  (is_hole r' = true -> is_hole r = true /\ parent_id r <> 1) /\
  (is_hole r' = true -> 0 <= parent_id r ->
     pts <$> rings (deleteRing example_mpoly 1) !! Z.to_nat (parent_id r') =
     pts <$> rings example_mpoly !! Z.to_nat (parent_id r)).
Proof.
  intros r r'. split; [reflexivity|]. split; [reflexivity|].
  apply (deleteRing_renumbers example_mpoly 1 3 r r');
    [cbn; lia | reflexivity | reflexivity].
Defined.

(** The ring that referred to the deleted one is no hole afterwards. *)
Example deleteRing_orphan :
  rings example_mpoly !! position_before 1 4 = Some (mkRing [vertexQ 5 5] true 1) /\
  rings (deleteRing example_mpoly 1) !! 4%nat = Some (mkRing [vertexQ 5 5] false (-1)).
Proof. split; reflexivity. Qed.

(** ** More about erosion *)

Lemma two_consecutive_true (ul um ur mr lr lm ll ml : bool) :
  two_consecutive ul um ur mr lr lm ll ml = true <->
  (ul = true /\ um = true) \/ (um = true /\ ur = true) \/
  (ur = true /\ mr = true) \/ (mr = true /\ lr = true) \/
  (lr = true /\ lm = true) \/ (lm = true /\ ll = true) \/
  (ll = true /\ ml = true) \/ (ml = true /\ ul = true).
Proof.
  unfold two_consecutive. rewrite !orb_true_iff, !andb_true_iff. tauto.
Qed.

(** X1: erosion is monotone.  When every pixel set in [g] is set in [g'],
    a grid of the same size, every pixel [erode] keeps in [g] it keeps in
    [g']. *)
Theorem erode_monotone (g g' : BitGrid) :
  subgrid g g' -> subgrid (erode g) (erode g').
Proof.
  intros (Hw & Hh & Hsub).
  destruct (erode_pixelwise g) as (Hw1 & Hh1 & Hg).
  destruct (erode_pixelwise g') as (Hw2 & Hh2 & Hg').
  split; [congruence|]. split; [congruence|].
  intros x y. rewrite Hg, Hg', !andb_true_iff, !ring_pair_set_get, !two_consecutive_true.
  intros [Hc Hp]. split; [apply Hsub; exact Hc|].
  pose proof (Hsub (x - 1) (y - 1)). pose proof (Hsub x (y - 1)).
  pose proof (Hsub (x + 1) (y - 1)). pose proof (Hsub (x + 1) y).
  pose proof (Hsub (x + 1) (y + 1)). pose proof (Hsub x (y + 1)).
  pose proof (Hsub (x - 1) (y + 1)). pose proof (Hsub (x - 1) y).
  tauto.
Qed.

Lemma l_shape_in_full3 : subgrid l_shape full3.
Proof.
  split; [reflexivity|]. split; [reflexivity|]. intros x y H.
  destruct (in_grid l_shape x y) eqn:Hin.
  - apply in_grid_iff in Hin. change (w l_shape) with 3 in Hin. change (h l_shape) with 3 in Hin.
    assert (Hx : x = 0 \/ x = 1 \/ x = 2) by lia.
    assert (Hy : y = 0 \/ y = 1 \/ y = 2) by lia.
    destruct Hx as [-> | [-> | ->]], Hy as [-> | [-> | ->]]; reflexivity.
  - rewrite (get_outside _ _ _ Hin) in H. discriminate H.
Defined.

Lemma erode_monotone_witness :
  subgrid l_shape full3 /\ subgrid (erode l_shape) (erode full3).
Proof.
  split; [exact l_shape_in_full3 | apply (erode_monotone l_shape full3 l_shape_in_full3)].
Defined.

(** X2: a grid one pixel wide or one pixel high is cleared: no pixel of
    it has two consecutive neighbors inside the grid. *)
Theorem erode_thin_grid (g : BitGrid) (x y : Z) :
  w g <= 1 \/ h g <= 1 -> get (erode g) x y = false.
Proof.
  intros Hthin. destruct (erode_pixelwise g) as (_ & _ & Hg). rewrite Hg.
  destruct (in_grid g x y) eqn:Hin; [|rewrite (get_outside g x y Hin); reflexivity].
  apply in_grid_iff in Hin.
  assert (Hout : forall a b, ~ (0 <= a < w g /\ 0 <= b < h g) -> cell g a b = false).
  { intros a b Hab. unfold cell. rewrite (proj2 (in_grid_false g a b) Hab). reflexivity. }
  unfold ring_pair_set, n_ul, n_u, n_ur, n_r, n_lr, n_d, n_ll, n_l.
  destruct Hthin as [Hw1 | Hh1].
  - rewrite (Hout (x - 1) (y - 1)), (Hout (x + 1) (y - 1)), (Hout (x + 1) y),
            (Hout (x + 1) (y + 1)), (Hout (x - 1) (y + 1)), (Hout (x - 1) y) by lia.
    destruct (get g x y), (cell g x (y - 1)), (cell g x (y + 1)); reflexivity.
  - rewrite (Hout (x - 1) (y - 1)), (Hout x (y - 1)), (Hout (x + 1) (y - 1)),
            (Hout (x + 1) (y + 1)), (Hout x (y + 1)), (Hout (x - 1) (y + 1)) by lia.
    destruct (get g x y), (cell g (x + 1) y), (cell g (x - 1) y); reflexivity.
Qed.

Lemma erode_thin_grid_witness :
  (w one_row <= 1 \/ h one_row <= 1) /\ get one_row 1 0 = true /\
  get (erode one_row) 1 0 = false.
Proof.
  assert (H : w one_row <= 1 \/ h one_row <= 1) by (right; vm_compute; discriminate).
  split; [exact H|]. split; [reflexivity|]. apply (erode_thin_grid one_row 1 0 H).
Defined.

(** X3: a pixel with at most one set neighbor is cleared. *)
Theorem erode_few_neighbors (g : BitGrid) (x y : Z) :
  neighbors_set g x y <= 1 -> get (erode g) x y = false.
Proof.
  intros Hfew. destruct (erode_pixelwise g) as (_ & _ & Hg). rewrite Hg.
  assert (Hp : ring_pair_set g x y = false).
  { unfold neighbors_set in Hfew. unfold ring_pair_set.
    destruct (n_ul g x y), (n_u g x y), (n_ur g x y), (n_r g x y),
             (n_lr g x y), (n_d g x y), (n_ll g x y), (n_l g x y);
      cbn in Hfew |- *; try reflexivity; lia. }
  rewrite Hp. apply andb_false_r.
Qed.

Lemma erode_few_neighbors_witness :
  neighbors_set pair_of_pixels 1 1 <= 1 /\ get pair_of_pixels 1 1 = true /\
  get (erode pair_of_pixels) 1 1 = false.
Proof.
  assert (H : neighbors_set pair_of_pixels 1 1 <= 1) by (vm_compute; discriminate).
  split; [exact H|]. split; [reflexivity|]. apply (erode_few_neighbors pair_of_pixels 1 1 H).
Defined.

Lemma get_true_cell (g : BitGrid) (x y : Z) : get g x y = true -> cell g x y = true.
Proof. intros H. rewrite cell_get. exact H. Qed.

(** X4: the four pixels of a fully set 2 by 2 square survive erosion. *)
Theorem erode_keeps_square (g : BitGrid) (x y : Z) :
  square_set g x y -> square_set (erode g) x y.
Proof.
  intros (H00 & H10 & H01 & H11).
  destruct (erode_pixelwise g) as (_ & _ & Hg).
  apply get_true_cell in H00 as C00. apply get_true_cell in H10 as C10.
  apply get_true_cell in H01 as C01. apply get_true_cell in H11 as C11.
  unfold square_set. rewrite !Hg, H00, H10, H01, H11. cbn [andb].
  unfold ring_pair_set, n_ul, n_u, n_ur, n_r, n_lr, n_d, n_ll, n_l.
  replace (x + 1 - 1) with x by lia. replace (y + 1 - 1) with y by lia.
  rewrite C00, C10, C01, C11. cbn [andb orb].
  repeat split; rewrite ?orb_true_r; reflexivity.
Qed.

Lemma erode_keeps_square_witness :
  square_set full3 1 1 /\ square_set (erode full3) 1 1.
Proof.
  assert (H : square_set full3 1 1) by (repeat split; reflexivity).
  split; [exact H | apply (erode_keeps_square full3 1 1 H)].
Defined.

(** X5: on a grid with every pixel set, at least two pixels wide and two
    high, erosion clears nothing. *)
Theorem erode_all_set (g : BitGrid) :
  2 <= w g -> 2 <= h g -> all_set g -> all_set (erode g).
Proof.
  intros Hw Hh Hall x y Hin.
  destruct (erode_pixelwise g) as (Hw' & Hh' & Hg).
  rewrite (in_grid_dims (erode g) g) in Hin by assumption.
  rewrite Hg, (Hall x y Hin). cbn [andb].
  apply in_grid_iff in Hin.
  assert (Hset : forall a b, 0 <= a < w g -> 0 <= b < h g -> cell g a b = true).
  { intros a b Ha Hb. rewrite cell_all_set by exact Hall. apply in_grid_iff. lia. }
  unfold ring_pair_set, n_ul, n_u, n_ur, n_r, n_lr, n_d, n_ll, n_l.
  destruct (Z_lt_dec (x + 1) (w g)) as [Hx|Hx], (Z_lt_dec (y + 1) (h g)) as [Hy|Hy].
  - rewrite (Hset (x + 1) y), (Hset (x + 1) (y + 1)) by lia.
    cbn [andb]. rewrite ?orb_true_r. reflexivity.
  - rewrite (Hset (x + 1) (y - 1)), (Hset (x + 1) y) by lia.
    cbn [andb]. rewrite ?orb_true_r. reflexivity.
  - rewrite (Hset (x - 1) (y + 1)), (Hset (x - 1) y) by lia.
    cbn [andb]. rewrite ?orb_true_r. reflexivity.
  - rewrite (Hset (x - 1) y), (Hset (x - 1) (y - 1)) by lia.
    cbn [andb]. rewrite ?orb_true_r. reflexivity.
Qed.

Lemma full3_all_set : all_set full3.
Proof.
  intros x y Hin. apply in_grid_iff in Hin. change (w full3) with 3 in Hin.
  change (h full3) with 3 in Hin.
  assert (Hx : x = 0 \/ x = 1 \/ x = 2) by lia.
  assert (Hy : y = 0 \/ y = 1 \/ y = 2) by lia.
  destruct Hx as [-> | [-> | ->]], Hy as [-> | [-> | ->]]; reflexivity.
Defined.

Lemma erode_all_set_witness :
  2 <= w full3 /\ 2 <= h full3 /\ all_set full3 /\ all_set (erode full3).
Proof.
  assert (Hw : 2 <= w full3) by (vm_compute; discriminate).
  assert (Hh : 2 <= h full3) by (vm_compute; discriminate).
  split; [exact Hw|]. split; [exact Hh|]. split; [exact full3_all_set|].
  apply (erode_all_set full3 Hw Hh full3_all_set).
Defined.

(** ** The mask of a byte image *)

Lemma writes_pixel_set (x y : Z) (v : bool) :
  writes_pixel (fun m => set m x y v) x y (fun _ => v).
Proof.
  intros m Hwf Hin. split; [apply wf_set; exact Hwf|].
  split; [apply w_set|]. split; [apply h_set|].
  split; [apply get_set_same; assumption|].
  intros x' y' Hne. apply get_set_other. exact Hne.
Qed.

(** The two loops of [get_bitgrid_for_8bit_raster] write every pixel once,
    reading the image byte by byte. *)
Lemma get_bitgrid_for_8bit_raster_spec (ww hh : Z) (raster : list Z) (wanted x y : Z) :
  0 <= x < ww -> 0 <= y < hh ->
  w (get_bitgrid_for_8bit_raster ww hh raster wanted) = ww /\
  h (get_bitgrid_for_8bit_raster ww hh raster wanted) = hh /\
  get (get_bitgrid_for_8bit_raster ww hh raster wanted) x y =
  (nth (Z.to_nat (ww * y + x)) raster 0 =? wanted).
Proof.
  intros Hx Hy. unfold get_bitgrid_for_8bit_raster.
  set (m0 := BitGrid_new ww hh).
  set (f := fun x y : Z => nth (Z.to_nat (ww * y + x)) raster 0 =? wanted).
  set (upd := fun (fl : bool) (_ : bool) => fl).
  set (row := fun (st : Z * BitGrid) (y : Z) => for_int ww _ st).
  pose proof (for_int_ind
    (fun y st => fst st = ww * y /\
                 scanned (fun _ y' => y' < y) f upd m0 (snd st))
    hh row (0, m0)) as H.
  cbv beta in H. destruct H as (_ & Hw & Hh & _ & Hg).
  - cbn [fst snd]. split; [lia|].
    eapply scanned_region_ext; [|apply scanned_start; apply wf_new]. same_region.
  - intros y0 st Hy0 [Hp Hsc]. unfold row.
    pose proof (for_int_ind
      (fun x st1 => fst st1 = ww * y0 + x /\
                    scanned (fun x' y' => y' < y0 \/ (y' = y0 /\ x' < x)) f upd m0 (snd st1))
      ww
      (fun (st1 : Z * BitGrid) x =>
         (fst st1 + 1,
          set (snd st1) x y0 (nth (Z.to_nat (fst st1)) raster 0 =? wanted)))
      st) as H.
    cbv beta in H. destruct H as [Hp' Hsc'].
    + split; [lia|]. eapply scanned_region_ext; [|exact Hsc]. same_region.
    + intros x0 st1 Hx0 [Hp1 Hsc1]. cbn [fst snd]. split; [lia|]. rewrite Hp1.
      eapply scanned_region_ext;
        [|apply (scanned_pixel _ f upd m0 (snd st1)
                   (fun m => set m x0 y0 (f x0 y0)) x0 y0 Hsc1)].
      * same_region.
      * apply in_grid_iff. subst m0. cbn [w h BitGrid_new]. lia.
      * lia.
      * apply writes_pixel_set.
    + split; [lia|]. eapply scanned_region_ext; [|exact Hsc'].
      intros a b Hin. apply in_grid_iff in Hin. subst m0.
      cbn [w h BitGrid_new] in Hin. cbv beta. intuition lia.
  - subst m0. cbn [w h BitGrid_new] in Hw, Hh.
    split; [exact Hw|]. split; [exact Hh|].
    assert (Hin : in_grid (BitGrid_new ww hh) x y = true).
    { apply in_grid_iff. cbn [w h BitGrid_new]. lia. }
    destruct (Hg x y Hin) as [Hyes _]. rewrite Hyes by lia. reflexivity.
Qed.

(** X6: [get_bitgrid_for_8bit_raster] returns a grid of the given size in
    which a pixel is set exactly when its byte of the image, at offset
    [w*y + x], is the wanted value. *)
Theorem get_bitgrid_for_8bit_raster_pixel (ww hh : Z) (raster : list Z) (wanted x y : Z) :
  0 <= x < ww -> 0 <= y < hh ->
  w (get_bitgrid_for_8bit_raster ww hh raster wanted) = ww /\
  h (get_bitgrid_for_8bit_raster ww hh raster wanted) = hh /\
  get (get_bitgrid_for_8bit_raster ww hh raster wanted) x y =
  (nth (Z.to_nat (ww * y + x)) raster 0 =? wanted).
Proof. apply get_bitgrid_for_8bit_raster_spec. Qed.

Lemma get_bitgrid_for_8bit_raster_pixel_witness :
  w (get_bitgrid_for_8bit_raster 3 2 [1; 2; 3; 2; 2; 1] 2) = 3 /\
  h (get_bitgrid_for_8bit_raster 3 2 [1; 2; 3; 2; 2; 1] 2) = 2 /\
  get (get_bitgrid_for_8bit_raster 3 2 [1; 2; 3; 2; 2; 1] 2) 1 1 =
  (nth (Z.to_nat (3 * 1 + 1)) [1; 2; 3; 2; 2; 1] 0 =? 2).
Proof.
  apply (get_bitgrid_for_8bit_raster_pixel 3 2 [1; 2; 3; 2; 2; 1] 2 1 1); lia.
Defined.

(** ** read_dataset_8bit *)

(** Two descriptions of a region agree on the pixels of the raster. *)
Ltac same_range :=
  let x := fresh "x" in
  let y := fresh "y" in
  let Hx := fresh "Hx" in
  let Hy := fresh "Hy" in
  intros x y Hx Hy; cbv beta; intuition lia.

Lemma occurs_ext (ww hh : Z) sample (R R' : Z -> Z -> Prop) (v : Z) :
  (forall x y, 0 <= x < ww -> 0 <= y < hh -> (R x y <-> R' x y)) ->
  occurs ww hh sample R v -> occurs ww hh sample R' v.
Proof.
  intros Hext (x & y & Hx & Hy & HR & Hs). exists x, y.
  split; [exact Hx|]. split; [exact Hy|]. split; [apply Hext; assumption | exact Hs].
Qed.

Lemma covered_region_ext (ww hh : Z) sample (R R' : Z -> Z -> Prop) (out usage : list Z) :
  (forall x y, 0 <= x < ww -> 0 <= y < hh -> (R x y <-> R' x y)) ->
  covered ww hh sample R out usage -> covered ww hh sample R' out usage.
Proof.
  intros Hext (Hlo & Ho & Hlu & Hu). split; [exact Hlo|]. split; [|split; [exact Hlu|]].
  - intros x y Hx Hy HR. apply Ho; try assumption. apply Hext; assumption.
  - intros v Hv. destruct (Hu v Hv) as [[H1 H2]|[H1 H2]].
    + left. split; [exact H1|]. revert H2. apply occurs_ext. exact Hext.
    + right. split; [exact H1|]. intros H. apply H2. revert H. apply occurs_ext.
      intros x y Hx Hy. symmetry. apply Hext; assumption.
Qed.

Lemma pixel_offset_inj (ww x y x' y' : Z) :
  0 <= x < ww -> 0 <= x' < ww -> ww * y + x = ww * y' + x' -> x = x' /\ y = y'.
Proof. intros Hx Hx' E. assert (y = y') by nia. subst y'. split; lia. Qed.

(** One more pixel is copied and its value marked. *)
Lemma covered_pixel (ww hh : Z) sample (R : Z -> Z -> Prop) (out usage : list Z) (x y : Z) :
  covered ww hh sample R out usage ->
  0 <= x < ww -> 0 <= y < hh -> 0 <= sample x y < 256 ->
  covered ww hh sample (fun x' y' => R x' y' \/ (x' = x /\ y' = y))
    (<[Z.to_nat (ww * y + x) := sample x y]> out)
    (<[Z.to_nat (sample x y) := 1]> usage).
Proof.
  intros (Hlo & Ho & Hlu & Hu) Hx Hy Hs.
  split; [rewrite length_insert; exact Hlo|].
  split; [|split; [rewrite length_insert; exact Hlu|]].
  - intros x' y' Hx' Hy' HR.
    destruct (decide (ww * y' + x' = ww * y + x)) as [E|N].
    + destruct (pixel_offset_inj ww x' y' x y Hx' Hx E) as [-> ->].
      apply nth_insert_same. rewrite Hlo. nia.
    + rewrite nth_insert_other by nia.
      apply Ho; try assumption. destruct HR as [HR|[-> ->]]; [exact HR | contradiction].
  - intros v Hv. destruct (Z.eq_dec v (sample x y)) as [->|Hne].
    + left. split; [apply nth_insert_same; rewrite Hlu; lia|].
      exists x, y. split; [lia|]. split; [lia|].
      split; [right; split; reflexivity | reflexivity].
    + rewrite nth_insert_other by lia.
      destruct (Hu v Hv) as [[H1 H2]|[H1 H2]].
      * left. split; [exact H1|]. destruct H2 as (a & b & Ha & Hb & HR & E).
        exists a, b. split; [lia|]. split; [lia|]. split; [left; exact HR | exact E].
      * right. split; [exact H1|]. intros (a & b & Ha & Hb & [HR|[-> ->]] & E).
        -- apply H2. exists a, b. split; [lia|]. split; [lia|]. split; assumption.
        -- apply Hne. symmetry. exact E.
Qed.

(** The byte the read pointer finds at offset [j*xsize + i] of a block. *)
Lemma GDALRasterIO_nth (sample : Z -> Z -> Z) (xoff yoff xsize ysize i j : Z) :
  0 <= i < xsize -> 0 <= j < ysize ->
  nth (Z.to_nat (j * xsize + i)) (GDALRasterIO sample xoff yoff xsize ysize) 0 =
  sample (xoff + i) (yoff + j).
Proof.
  intros Hi Hj. apply nth_lookup_Some.
  pose proof (GDALRasterIO_lookup sample xoff yoff xsize ysize i j Hi Hj) as H.
  rewrite lookup_drop in H. rewrite <- H. f_equal. nia.
Qed.

(** The rows of one block are copied. *)
Lemma covered_block (ww hh : Z) sample (R : Z -> Z -> Prop) (out usage : list Z)
    (boff_x boff_y bsize_x bsize_y : Z) :
  covered ww hh sample R out usage -> byte_samples ww hh sample ->
  0 <= boff_x -> 0 <= boff_y -> 0 <= bsize_x ->
  boff_x + bsize_x <= ww -> boff_y + bsize_y <= hh ->
  covered ww hh sample
    (fun x y => R x y \/ (boff_y <= y < boff_y + bsize_y /\ boff_x <= x < boff_x + bsize_x))
    (fst (copy_block_rows ww (GDALRasterIO sample boff_x boff_y bsize_x bsize_y)
            boff_x boff_y bsize_x bsize_y out usage))
    (snd (copy_block_rows ww (GDALRasterIO sample boff_x boff_y bsize_x bsize_y)
            boff_x boff_y bsize_x bsize_y out usage)).
Proof.
  intros Hcov Hbytes Hbx Hby Hsx Hw Hh. unfold copy_block_rows. cbn [fst snd].
  set (inbuf := GDALRasterIO sample boff_x boff_y bsize_x bsize_y).
  set (px := fun (st : CopyState) (i : Z) => mkCopyState _ _ _ _).
  set (rw := fun (st : CopyState) (j : Z) => for_int bsize_x px _).
  pose proof (for_int_ind
    (fun j st => p_in st = j * bsize_x /\
       covered ww hh sample
         (fun x y => R x y \/ (boff_y <= y < boff_y + j /\ boff_x <= x < boff_x + bsize_x))
         (outbuf st) (usage_array st))
    bsize_y rw (mkCopyState 0 0 out usage)) as H.
  cbv beta in H. destruct H as [_ Hfin].
  - cbn [p_in outbuf usage_array]. split; [lia|].
    eapply covered_region_ext; [|exact Hcov]. same_range.
  - intros j st Hj [Hp Hst]. unfold rw.
    pose proof (for_int_ind
      (fun i st1 => p_in st1 = j * bsize_x + i /\
         p_out st1 = ww * (j + boff_y) + boff_x + i /\
         covered ww hh sample
           (fun x y => R x y \/
              (boff_y <= y < boff_y + j /\ boff_x <= x < boff_x + bsize_x) \/
              (y = boff_y + j /\ boff_x <= x < boff_x + i))
           (outbuf st1) (usage_array st1))
      bsize_x px
      (mkCopyState (p_in st) (ww * (j + boff_y) + boff_x) (outbuf st) (usage_array st))) as H.
    cbv beta in H. destruct H as (Hp' & _ & Hcov').
    + cbn [p_in p_out outbuf usage_array]. split; [lia|]. split; [lia|].
      eapply covered_region_ext; [|exact Hst]. same_range.
    + intros i st1 Hi (Hp1 & Hq1 & Hc1). unfold px.
      cbn [p_in p_out outbuf usage_array]. split; [lia|]. split; [lia|].
      rewrite Hp1, Hq1. unfold inbuf. rewrite GDALRasterIO_nth by lia.
      replace (ww * (j + boff_y) + boff_x + i)
        with (ww * (boff_y + j) + (boff_x + i)) by lia.
      eapply covered_region_ext;
        [|apply (covered_pixel ww hh sample _ _ _ (boff_x + i) (boff_y + j) Hc1)];
        try lia.
      * same_range.
      * apply Hbytes; lia.
    + split; [lia|]. eapply covered_region_ext; [|exact Hcov']. same_range.
  - eapply covered_region_ext; [|exact Hfin]. same_range.
Qed.

Lemma usage_array_cleared (usage : list Z) :
  length usage = 256%nat ->
  length (for_int 256 (fun u i => <[Z.to_nat i := 0]> u) usage) = 256%nat /\
  forall v, 0 <= v < 256 ->
    nth (Z.to_nat v) (for_int 256 (fun u i => <[Z.to_nat i := 0]> u) usage) 0 = 0.
Proof.
  intros Hlen.
  pose proof (for_int_ind
    (fun i u => length u = 256%nat /\ forall v, 0 <= v < i -> nth (Z.to_nat v) u 0 = 0)
    256 (fun u i => <[Z.to_nat i := 0]> u) usage) as H.
  cbv beta in H. destruct H as [Hl Hv].
  - split; [exact Hlen | intros v Hv; lia].
  - intros i u Hi [Hl Hv]. split; [rewrite length_insert; exact Hl|].
    intros v Hvi. destruct (Z.eq_dec v i) as [->|Hne].
    + apply nth_insert_same. lia.
    + rewrite nth_insert_other by lia. apply Hv. lia.
  - split; [exact Hl | intros v Hvr; apply Hv; lia].
Qed.

(** The whole of [read_dataset_8bit] for a band the data set has. *)
Lemma read_dataset_8bit_covered (ds : GDALDataset) (band_idx : Z) (usage : list Z) :
  band_in_range ds band_idx ->
  0 < blocksize_x (GDALGetRasterBand ds band_idx) ->
  0 < blocksize_y (GDALGetRasterBand ds band_idx) ->
  length usage = 256%nat ->
  byte_samples (XSize ds) (YSize ds) (sample_8bit (GDALGetRasterBand ds band_idx)) ->
  exists out usage',
    read_dataset_8bit ds band_idx usage = Returns (out, usage') /\
    covered (XSize ds) (YSize ds) (sample_8bit (GDALGetRasterBand ds band_idx))
            (fun _ _ => True) out usage'.
Proof.
  intros Hrange Hbx Hby Hlen Hbytes. unfold read_dataset_8bit.
  rewrite (proj2 (band_in_range_test ds band_idx) Hrange).
  set (band := GDALGetRasterBand ds band_idx) in *.
  set (ww := XSize ds) in *. set (hh := YSize ds) in *.
  destruct (usage_array_cleared usage Hlen) as [Hl0 Hz0].
  set (usage0 := for_int 256 _ usage) in *.
  destruct (for_blocks_ind
    (fun o (st : list Z * list Z) =>
       covered ww hh (sample_8bit band) (fun _ y => y < o) (fst st) (snd st))
    hh (blocksize_y band)
    (fun st boff_y =>
       for_blocks (Z.to_nat ww) 0 ww (blocksize_x band)
         (fun st boff_x =>
            Some (copy_block_rows ww
                    (GDALRasterIO (sample_8bit band) boff_x boff_y
                       (clip_block (blocksize_x band) boff_x ww)
                       (clip_block (blocksize_y band) boff_y hh))
                    boff_x boff_y
                    (clip_block (blocksize_x band) boff_x ww)
                    (clip_block (blocksize_y band) boff_y hh) (fst st) (snd st)))
         st) Hby) with (Z.to_nat hh) 0 (repeat 0 (Z.to_nat (ww * hh)), usage0)
    as (st' & o' & Hrun & Ho' & Hst').
  - intros boff_y st Hy Hst.
    pose proof (clip_block_bounds (blocksize_y band) boff_y hh Hby Hy) as (Hcy1 & Hcy2 & Hcy3 & Hcy4).
    set (bsize_y := clip_block (blocksize_y band) boff_y hh) in *.
    destruct (for_blocks_ind
      (fun o (st1 : list Z * list Z) =>
         covered ww hh (sample_8bit band)
           (fun x y => y < boff_y \/ (boff_y <= y < boff_y + bsize_y /\ x < o))
           (fst st1) (snd st1))
      ww (blocksize_x band)
      (fun st1 boff_x =>
         Some (copy_block_rows ww
                 (GDALRasterIO (sample_8bit band) boff_x boff_y
                    (clip_block (blocksize_x band) boff_x ww) bsize_y)
                 boff_x boff_y (clip_block (blocksize_x band) boff_x ww) bsize_y
                 (fst st1) (snd st1)))
      Hbx) with (Z.to_nat ww) 0 st as (st2 & o2 & Hrun2 & Ho2 & Hst2).
    + intros boff_x st1 Hx Hst1.
      pose proof (clip_block_bounds (blocksize_x band) boff_x ww Hbx Hx) as (Hcx1 & Hcx2 & Hcx3 & Hcx4).
      set (bsize_x := clip_block (blocksize_x band) boff_x ww) in *.
      eexists. split; [reflexivity|].
      eapply covered_region_ext;
        [|apply (covered_block ww hh (sample_8bit band) _ (fst st1) (snd st1)
                   boff_x boff_y bsize_x bsize_y Hst1 Hbytes)]; try lia.
      same_range.
    + lia.
    + lia.
    + eapply covered_region_ext; [|exact Hst]. same_range.
    + exists st2. split; [exact Hrun2|].
      eapply covered_region_ext; [|exact Hst2]. same_range.
  - lia.
  - lia.
  - cbn [fst snd]. split; [apply repeat_length|]. split; [intros x y Hx Hy Hneg; lia|].
    split; [exact Hl0|]. intros v Hv. right. split; [apply Hz0; exact Hv|].
    intros (x & y & Hx & Hy & Hneg & _). lia.
  - rewrite Hrun. destruct st' as [out usage']. exists out, usage'.
    split; [reflexivity|]. cbn [fst snd] in Hst'.
    eapply covered_region_ext; [|exact Hst']. same_range.
Qed.

(** X7: for a band the data set has, [read_dataset_8bit] returns, and its
    buffer has [w*h] bytes, the byte at offset [w*y + x] being the sample
    of the band at pixel [(x,y)], whatever the block size of the band. *)
Theorem read_dataset_8bit_copies (ds : GDALDataset) (band_idx : Z) (usage : list Z) :
  band_in_range ds band_idx ->
  0 < blocksize_x (GDALGetRasterBand ds band_idx) ->
  0 < blocksize_y (GDALGetRasterBand ds band_idx) ->
  length usage = 256%nat ->
  byte_samples (XSize ds) (YSize ds) (sample_8bit (GDALGetRasterBand ds band_idx)) ->
  exists out usage',
    read_dataset_8bit ds band_idx usage = Returns (out, usage') /\
    length out = Z.to_nat (XSize ds * YSize ds) /\
    forall x y, 0 <= x < XSize ds -> 0 <= y < YSize ds ->
      nth (Z.to_nat (XSize ds * y + x)) out 0 =
      sample_8bit (GDALGetRasterBand ds band_idx) x y.
Proof.
  intros Hrange Hbx Hby Hlen Hbytes.
  destruct (read_dataset_8bit_covered ds band_idx usage Hrange Hbx Hby Hlen Hbytes)
    as (out & usage' & Hrun & Hlo & Ho & _ & _).
  exists out, usage'. split; [exact Hrun|]. split; [exact Hlo|].
  intros x y Hx Hy. apply Ho; try assumption. exact I.
Qed.

(** X8: the usage array [read_dataset_8bit] leaves has 256 entries, each 0
    or 1, and the entry of a value is 1 exactly when the value is the
    sample of some pixel of the band; what the array held before is gone. *)
Theorem read_dataset_8bit_usage (ds : GDALDataset) (band_idx : Z) (usage : list Z) :
  band_in_range ds band_idx ->
  0 < blocksize_x (GDALGetRasterBand ds band_idx) ->
  0 < blocksize_y (GDALGetRasterBand ds band_idx) ->
  length usage = 256%nat ->
  byte_samples (XSize ds) (YSize ds) (sample_8bit (GDALGetRasterBand ds band_idx)) ->
  exists out usage',
    read_dataset_8bit ds band_idx usage = Returns (out, usage') /\
    length usage' = 256%nat /\
    forall v, 0 <= v < 256 ->
      (nth (Z.to_nat v) usage' 0 = 0 \/ nth (Z.to_nat v) usage' 0 = 1) /\
      (nth (Z.to_nat v) usage' 0 = 1 <->
       exists x y, 0 <= x < XSize ds /\ 0 <= y < YSize ds /\
                   sample_8bit (GDALGetRasterBand ds band_idx) x y = v).
Proof.
  intros Hrange Hbx Hby Hlen Hbytes.
  destruct (read_dataset_8bit_covered ds band_idx usage Hrange Hbx Hby Hlen Hbytes)
    as (out & usage' & Hrun & _ & _ & Hlu & Hu).
  exists out, usage'. split; [exact Hrun|]. split; [exact Hlu|].
  intros v Hv. destruct (Hu v Hv) as [[H1 H2]|[H1 H2]].
  - split; [right; exact H1|]. split; [|intros _; exact H1].
    intros _. destruct H2 as (x & y & Hx & Hy & _ & E). exists x, y. auto.
  - split; [left; exact H1|]. split; [rewrite H1; discriminate|].
    intros (x & y & Hx & Hy & E). exfalso. apply H2. exists x, y. auto.
Qed.

(** X18: a band read by [read_dataset_8bit] and masked by
    [get_bitgrid_for_8bit_raster] gives the pixels whose sample is the
    wanted value; for a value the usage array does not mark the mask has
    no pixel set. *)
Theorem read_then_mask (ds : GDALDataset) (band_idx : Z) (usage : list Z) :
  band_in_range ds band_idx ->
  0 < blocksize_x (GDALGetRasterBand ds band_idx) ->
  0 < blocksize_y (GDALGetRasterBand ds band_idx) ->
  length usage = 256%nat ->
  byte_samples (XSize ds) (YSize ds) (sample_8bit (GDALGetRasterBand ds band_idx)) ->
  exists out usage',
    read_dataset_8bit ds band_idx usage = Returns (out, usage') /\
    forall wanted x y, 0 <= x < XSize ds -> 0 <= y < YSize ds ->
      get (get_bitgrid_for_8bit_raster (XSize ds) (YSize ds) out wanted) x y =
      (sample_8bit (GDALGetRasterBand ds band_idx) x y =? wanted) /\
      (0 <= wanted < 256 -> nth (Z.to_nat wanted) usage' 0 = 0 ->
       get (get_bitgrid_for_8bit_raster (XSize ds) (YSize ds) out wanted) x y = false).
Proof.
  intros Hrange Hbx Hby Hlen Hbytes.
  destruct (read_dataset_8bit_covered ds band_idx usage Hrange Hbx Hby Hlen Hbytes)
    as (out & usage' & Hrun & _ & Ho & _ & Hu).
  exists out, usage'. split; [exact Hrun|]. intros wanted x y Hx Hy.
  destruct (get_bitgrid_for_8bit_raster_spec (XSize ds) (YSize ds) out wanted x y Hx Hy)
    as (_ & _ & Hg).
  rewrite Hg, (Ho x y Hx Hy I). split; [reflexivity|].
  intros Hwanted Hzero. apply Z.eqb_neq. intros E.
  destruct (Hu wanted Hwanted) as [[H1 _]|[_ H2]]; [congruence|].
  apply H2. exists x, y. split; [exact Hx|]. split; [exact Hy|]. split; [exact I | exact E].
Qed.

(** ** The mask of a whole band list *)

(** The bands after the first: with invert off a pixel is in the mask when
    it was or some band has data there, with invert on when it was and
    every band has data there. *)
Lemma band_loop_later (ds : GDALDataset) (ndv_def : NdvDef) (l : list Z) :
  blocks_positive ds -> Forall (band_in_range ds) l ->
  forall (k : Z) (m : BitGrid),
    0 < k -> wf_grid m -> w m = XSize ds -> h m = YSize ds ->
    exists m', band_loop ds ndv_def k l m = Returns m' /\
      wf_grid m' /\ w m' = XSize ds /\ h m' = YSize ds /\
      forall x y, in_grid m x y = true ->
        (isInvert ndv_def = false ->
           (get m' x y = true <->
            get m x y = true \/
            exists (i : nat) b, l !! i = Some b /\
              pixel_is_ndv ndv_def (k + Z.of_nat i) (GDALGetRasterBand ds b) x y = false)) /\
        (isInvert ndv_def = true ->
           (get m' x y = true <->
            get m x y = true /\
            forall (i : nat) b, l !! i = Some b ->
              pixel_is_ndv ndv_def (k + Z.of_nat i) (GDALGetRasterBand ds b) x y = false)).
Proof.
  intros Hpos Hall. induction Hall as [|b l Hb Hl IH]; intros k m Hk Hwf Hw Hh.
  - exists m. split; [reflexivity|]. split; [exact Hwf|]. split; [exact Hw|].
    split; [exact Hh|]. intros x y Hin. split; intros Hinv; split.
    + intros H. left. exact H.
    + intros [H|(i & b & Hi & _)]; [exact H | discriminate Hi].
    + intros H. split; [exact H|]. intros i b Hi. discriminate Hi.
    + intros [H _]. exact H.
  - cbn [band_loop]. rewrite (proj2 (band_in_range_test ds b) Hb).
    destruct (band_loop_step ds ndv_def k b m Hpos Hb ltac:(lia) Hwf Hw Hh)
      as (m1 & Hrun & Hwf1 & Hw1 & Hh1 & Hg1).
    rewrite Hrun.
    destruct (IH (k + 1) m1 ltac:(lia) Hwf1 Hw1 Hh1) as (m' & Hrun' & Hwf' & Hw' & Hh' & Hg').
    exists m'. split; [exact Hrun'|]. split; [exact Hwf'|]. split; [exact Hw'|].
    split; [exact Hh'|]. intros x y Hin.
    assert (Hin1 : in_grid m1 x y = true).
    { rewrite <- Hin. apply in_grid_dims; congruence. }
    specialize (Hg1 x y Hin). destruct (Hg' x y Hin1) as [Hoff Hon].
    unfold combination_rule in Hg1. rewrite (proj2 (Z.eqb_neq k 0)) in Hg1 by lia.
    split; intros Hinv; rewrite Hinv in Hg1.
    + rewrite (Hoff Hinv), Hg1, orb_true_iff, negb_true_iff. split.
      * intros [[H|H]|(i & b' & Hi & Hf)].
        -- left. exact H.
        -- right. exists 0%nat, b. split; [reflexivity|]. rewrite Z.add_0_r. exact H.
        -- right. exists (S i), b'. split; [exact Hi|].
           replace (k + Z.of_nat (S i)) with (k + 1 + Z.of_nat i) by lia. exact Hf.
      * intros [H|(i & b' & Hi & Hf)]; [left; left; exact H|].
        destruct i as [|i].
        -- cbn in Hi. inversion Hi; subst b'. left. right.
           rewrite Z.add_0_r in Hf. exact Hf.
        -- right. exists i, b'. split; [exact Hi|].
           replace (k + 1 + Z.of_nat i) with (k + Z.of_nat (S i)) by lia. exact Hf.
    + rewrite (Hon Hinv), Hg1, andb_true_iff, negb_true_iff. split.
      * intros [[H Hf0] Hrest]. split; [exact H|]. intros i b' Hi.
        destruct i as [|i].
        -- cbn in Hi. inversion Hi; subst b'. rewrite Z.add_0_r. exact Hf0.
        -- replace (k + Z.of_nat (S i)) with (k + 1 + Z.of_nat i) by lia.
           apply Hrest. exact Hi.
      * intros [H Hrest]. split; [split; [exact H|]|].
        -- specialize (Hrest 0%nat b eq_refl). rewrite Z.add_0_r in Hrest. exact Hrest.
        -- intros i b' Hi. specialize (Hrest (S i) b' Hi).
           replace (k + Z.of_nat (S i)) with (k + 1 + Z.of_nat i) in Hrest by lia.
           exact Hrest.
Qed.

(** X9: with invert off the mask is the union over the band list: the
    build returns a grid of the size of the raster in which a pixel is set
    exactly when the band at some position of the list is not no-data
    there. *)
Theorem get_bitgrid_for_dataset_union
    (ds : GDALDataset) (ndv_def : NdvDef) (bandlist : list Z) :
  blocks_positive ds -> Forall (band_in_range ds) bandlist ->
  isInvert ndv_def = false ->
  exists mask,
    get_bitgrid_for_dataset ds bandlist ndv_def = Returns mask /\
    w mask = XSize ds /\ h mask = YSize ds /\
    forall x y, in_grid mask x y = true ->
      (get mask x y = true <->
       exists (i : nat) band_idx, bandlist !! i = Some band_idx /\
         pixel_is_ndv ndv_def (Z.of_nat i) (GDALGetRasterBand ds band_idx) x y = false).
Proof.
  intros Hpos Hall Hinv. destruct (initial_mask ds) as (Hwf0 & Hw0 & Hh0).
  unfold get_bitgrid_for_dataset. set (m0 := zero (BitGrid_new (XSize ds) (YSize ds))) in *.
  destruct bandlist as [|b l].
  - exists m0. split; [reflexivity|]. split; [exact Hw0|]. split; [exact Hh0|].
    intros x y _. subst m0. rewrite get_zero. split; [discriminate|].
    intros (i & b & Hi & _). discriminate Hi.
  - inversion Hall as [|b0 l0 Hb Hl]; subst. cbn [band_loop].
    rewrite (proj2 (band_in_range_test ds b) Hb).
    destruct (band_loop_step ds ndv_def 0 b m0 Hpos Hb ltac:(lia) Hwf0 Hw0 Hh0)
      as (m1 & Hrun & Hwf1 & Hw1 & Hh1 & Hg1).
    rewrite Hrun.
    destruct (band_loop_later ds ndv_def l Hpos Hl (0 + 1) m1 ltac:(lia) Hwf1 Hw1 Hh1)
      as (m' & Hrun' & Hwf' & Hw' & Hh' & Hg').
    exists m'. split; [exact Hrun'|]. split; [exact Hw'|]. split; [exact Hh'|].
    intros x y Hin.
    assert (Hin1 : in_grid m1 x y = true) by (rewrite <- Hin; apply in_grid_dims; congruence).
    assert (Hin0 : in_grid m0 x y = true) by (rewrite <- Hin; apply in_grid_dims; congruence).
    destruct (Hg' x y Hin1) as [Hoff _]. rewrite (Hoff Hinv), (Hg1 x y Hin0).
    unfold combination_rule. cbn [Z.eqb]. rewrite negb_true_iff. split.
    + intros [H|(i & b' & Hi & Hf)].
      * exists 0%nat, b. split; [reflexivity | exact H].
      * exists (S i), b'. split; [exact Hi|].
        replace (Z.of_nat (S i)) with (0 + 1 + Z.of_nat i) by lia. exact Hf.
    + intros (i & b' & Hi & Hf). destruct i as [|i].
      * cbn in Hi. inversion Hi; subst b'. left. exact Hf.
      * right. exists i, b'. split; [exact Hi|].
        replace (0 + 1 + Z.of_nat i) with (Z.of_nat (S i)) by lia. exact Hf.
Qed.

(** X10: with invert on and a band list that is not empty the mask is the
    intersection: a pixel is set exactly when the band at every position
    of the list is not no-data there. *)
Theorem get_bitgrid_for_dataset_intersection
    (ds : GDALDataset) (ndv_def : NdvDef) (bandlist : list Z) :
  blocks_positive ds -> Forall (band_in_range ds) bandlist ->
  isInvert ndv_def = true -> bandlist <> [] ->
  exists mask,
    get_bitgrid_for_dataset ds bandlist ndv_def = Returns mask /\
    w mask = XSize ds /\ h mask = YSize ds /\
    forall x y, in_grid mask x y = true ->
      (get mask x y = true <->
       forall (i : nat) band_idx, bandlist !! i = Some band_idx ->
         pixel_is_ndv ndv_def (Z.of_nat i) (GDALGetRasterBand ds band_idx) x y = false).
Proof.
  intros Hpos Hall Hinv Hne. destruct (initial_mask ds) as (Hwf0 & Hw0 & Hh0).
  unfold get_bitgrid_for_dataset. set (m0 := zero (BitGrid_new (XSize ds) (YSize ds))) in *.
  destruct bandlist as [|b l]; [contradiction|].
  inversion Hall as [|b0 l0 Hb Hl]; subst. cbn [band_loop].
  rewrite (proj2 (band_in_range_test ds b) Hb).
  destruct (band_loop_step ds ndv_def 0 b m0 Hpos Hb ltac:(lia) Hwf0 Hw0 Hh0)
    as (m1 & Hrun & Hwf1 & Hw1 & Hh1 & Hg1).
  rewrite Hrun.
  destruct (band_loop_later ds ndv_def l Hpos Hl (0 + 1) m1 ltac:(lia) Hwf1 Hw1 Hh1)
    as (m' & Hrun' & Hwf' & Hw' & Hh' & Hg').
  exists m'. split; [exact Hrun'|]. split; [exact Hw'|]. split; [exact Hh'|].
  intros x y Hin.
  assert (Hin1 : in_grid m1 x y = true) by (rewrite <- Hin; apply in_grid_dims; congruence).
  assert (Hin0 : in_grid m0 x y = true) by (rewrite <- Hin; apply in_grid_dims; congruence).
  destruct (Hg' x y Hin1) as [_ Hon]. rewrite (Hon Hinv), (Hg1 x y Hin0).
  unfold combination_rule. cbn [Z.eqb]. rewrite negb_true_iff. split.
  - intros [Hf0 Hrest] i b' Hi. destruct i as [|i].
    + cbn in Hi. inversion Hi; subst b'. exact Hf0.
    + replace (Z.of_nat (S i)) with (0 + 1 + Z.of_nat i) by lia. apply Hrest. exact Hi.
  - intros Hevery. split; [apply (Hevery 0%nat b eq_refl)|].
    intros i b' Hi. specialize (Hevery (S i) b' Hi).
    replace (Z.of_nat (S i)) with (0 + 1 + Z.of_nat i) in Hevery by lia. exact Hevery.
Qed.

Lemma bandlist_in_range_or_not (ds : GDALDataset) (l : list Z) :
  Forall (band_in_range ds) l \/ Exists (fun b => ~ band_in_range ds b) l.
Proof.
  induction l as [|b l IH]; [left; constructor|].
  destruct ((b <? 1) || (b >? GDALGetRasterCount ds)) eqn:E.
  - right. apply Exists_cons_hd. intros H. apply band_in_range_test in H. congruence.
  - apply band_in_range_test in E.
    destruct IH as [IH|IH]; [left; constructor; assumption | right; apply Exists_cons_tl; exact IH].
Qed.

(** X19: with positive block sizes the build never hangs: it returns a
    mask of the size of the raster when every entry of the band list is a
    band of the data set, and it stops in [fatal_error] otherwise. *)
Theorem get_bitgrid_for_dataset_outcome
    (ds : GDALDataset) (ndv_def : NdvDef) (bandlist : list Z) :
  blocks_positive ds ->
  (Forall (band_in_range ds) bandlist /\
   exists mask, get_bitgrid_for_dataset ds bandlist ndv_def = Returns mask /\
                w mask = XSize ds /\ h mask = YSize ds) \/
  (~ Forall (band_in_range ds) bandlist /\
   get_bitgrid_for_dataset ds bandlist ndv_def = FatalError "bandid out of range").
Proof.
  intros Hpos. destruct (initial_mask ds) as (Hwf0 & Hw0 & Hh0).
  destruct (bandlist_in_range_or_not ds bandlist) as [Hall | Hex].
  - left. split; [exact Hall|].
    destruct (band_loop_returns ds ndv_def bandlist Hpos Hall 0 _ ltac:(lia) Hwf0 Hw0 Hh0)
      as (m & Hm & _ & Hw & Hh).
    exists m. repeat split; assumption.
  - right. split.
    + intros Hall. induction Hex as [b l Hn | b l Hex IH].
      * inversion Hall; subst. contradiction.
      * inversion Hall; subst. apply IH. assumption.
    + unfold get_bitgrid_for_dataset. apply band_loop_fatal; try assumption; lia.
Qed.

(** ** Tiling *)

Lemma same_samples_nth (l1 l2 : list GDALRasterBand) (n : nat) :
  Forall2 same_samples l1 l2 -> same_samples (nth n l1 null_band) (nth n l2 null_band).
Proof.
  intros H. revert n. induction H as [|b1 b2 l1 l2 Hb Hl IH]; intros n.
  - destruct n; repeat split; reflexivity.
  - destruct n as [|n]; [exact Hb | apply IH].
Qed.

Lemma same_raster_ndv (ds1 ds2 : GDALDataset) (ndv_def : NdvDef) (k band_idx x y : Z) :
  same_raster ds1 ds2 ->
  pixel_is_ndv ndv_def k (GDALGetRasterBand ds1 band_idx) x y =
  pixel_is_ndv ndv_def k (GDALGetRasterBand ds2 band_idx) x y.
Proof.
  intros (_ & _ & Hb). unfold GDALGetRasterBand.
  destruct (same_samples_nth _ _ (Z.to_nat (band_idx - 1)) Hb) as (Ht & H8 & Hd).
  unfold pixel_is_ndv. rewrite Ht, H8, Hd. reflexivity.
Qed.

Lemma same_raster_count (ds1 ds2 : GDALDataset) :
  same_raster ds1 ds2 -> GDALGetRasterCount ds1 = GDALGetRasterCount ds2.
Proof.
  intros (_ & _ & Hb). unfold GDALGetRasterCount. f_equal.
  induction Hb; cbn [length]; congruence.
Qed.

Lemma band_loop_same_raster (ds1 ds2 : GDALDataset) (ndv_def : NdvDef) (l : list Z) :
  same_raster ds1 ds2 -> blocks_positive ds1 -> blocks_positive ds2 ->
  Forall (band_in_range ds1) l ->
  forall (k : Z) (m1 m2 : BitGrid),
    0 <= k -> wf_grid m1 -> wf_grid m2 ->
    w m1 = XSize ds1 -> h m1 = YSize ds1 -> w m2 = XSize ds2 -> h m2 = YSize ds2 ->
    (forall x y, get m1 x y = get m2 x y) ->
    exists m1' m2',
      band_loop ds1 ndv_def k l m1 = Returns m1' /\
      band_loop ds2 ndv_def k l m2 = Returns m2' /\
      forall x y, get m1' x y = get m2' x y.
Proof.
  intros Hsame Hpos1 Hpos2 Hall.
  induction Hall as [|b l Hb Hl IH]; intros k m1 m2 Hk Hwf1 Hwf2 Hw1 Hh1 Hw2 Hh2 Heq.
  - exists m1, m2. repeat split. exact Heq.
  - assert (Hb2 : band_in_range ds2 b).
    { unfold band_in_range in *. rewrite <- (same_raster_count ds1 ds2 Hsame). exact Hb. }
    cbn [band_loop].
    rewrite (proj2 (band_in_range_test ds1 b) Hb), (proj2 (band_in_range_test ds2 b) Hb2).
    destruct (band_loop_step ds1 ndv_def k b m1 Hpos1 Hb Hk Hwf1 Hw1 Hh1)
      as (n1 & Hrun1 & Hwfn1 & Hwn1 & Hhn1 & Hg1).
    destruct (band_loop_step ds2 ndv_def k b m2 Hpos2 Hb2 Hk Hwf2 Hw2 Hh2)
      as (n2 & Hrun2 & Hwfn2 & Hwn2 & Hhn2 & Hg2).
    rewrite Hrun1, Hrun2. apply IH; try assumption; try lia.
    intros x y. destruct Hsame as (HX & HY & Hbands).
    destruct (in_grid m1 x y) eqn:Hin.
    + assert (Hin2 : in_grid m2 x y = true).
      { rewrite <- Hin. unfold in_grid. congruence. }
      rewrite (Hg1 x y Hin), (Hg2 x y Hin2), Heq.
      rewrite (same_raster_ndv ds1 ds2 ndv_def k b x y); [reflexivity|].
      split; [exact HX|]. split; [exact HY | exact Hbands].
    + assert (Hin2 : in_grid m2 x y = false).
      { rewrite <- Hin. unfold in_grid. congruence. }
      rewrite !get_outside; [reflexivity | |].
      * rewrite <- Hin2. unfold in_grid. congruence.
      * rewrite <- Hin. unfold in_grid. congruence.
Qed.

(** X11: the tiling does not matter.  Two data sets of one size whose
    bands deliver the same samples give masks with the same pixels,
    whatever their (positive) block sizes are. *)
Theorem get_bitgrid_for_dataset_tiling
    (ds1 ds2 : GDALDataset) (ndv_def : NdvDef) (bandlist : list Z) :
  same_raster ds1 ds2 -> blocks_positive ds1 -> blocks_positive ds2 ->
  Forall (band_in_range ds1) bandlist ->
  exists m1 m2,
    get_bitgrid_for_dataset ds1 bandlist ndv_def = Returns m1 /\
    get_bitgrid_for_dataset ds2 bandlist ndv_def = Returns m2 /\
    forall x y, get m1 x y = get m2 x y.
Proof.
  intros Hsame Hpos1 Hpos2 Hall. unfold get_bitgrid_for_dataset.
  destruct (initial_mask ds1) as (Hwf1 & Hw1 & Hh1).
  destruct (initial_mask ds2) as (Hwf2 & Hw2 & Hh2).
  apply (band_loop_same_raster ds1 ds2 ndv_def bandlist Hsame Hpos1 Hpos2 Hall);
    try assumption; try lia.
  intros x y. rewrite !get_zero. reflexivity.
Qed.

(** ** More about bounding boxes *)

(** X12: [expand] only grows a box: afterwards the box is not empty, it
    contains the vertex, and it contains every point it contained before. *)
Theorem expand_contains (bb : Bbox) (v : Vertex Q) :
  empty (expand bb v) = false /\
  in_box (expand bb v) v /\
  forall p, in_box bb p -> in_box (expand bb v) p.
Proof.
  split; [|split].
  - unfold expand. destruct (empty bb); reflexivity.
  - apply expand_in_box_new.
  - intros p. apply expand_in_box_old.
Qed.

Lemma attained_weaken (P P' : Vertex Q -> Prop) (bb : Bbox) :
  (forall v, P v -> P' v) -> attained P bb -> attained P' bb.
Proof.
  intros HP (He & (a & Ha & Ea) & (b & Hb & Eb) & (c & Hc & Ec) & (d & Hd & Ed)).
  split; [exact He|]. repeat split; eauto.
Qed.

Lemma expand_attained (P : Vertex Q -> Prop) (bb : Bbox) (v : Vertex Q) :
  empty bb = true \/ attained P bb ->
  attained (fun u => P u \/ u = v) (expand bb v).
Proof.
  intros [He | (He & (a & Ha & Ea) & (b & Hb & Eb) & (c & Hc & Ec) & (d & Hd & Ed))];
    unfold attained, expand; rewrite He; cbn [empty min_x max_x min_y max_y].
  - split; [reflexivity|]. repeat split; exists v; auto.
  - split; [reflexivity|]. repeat split.
    + destruct (Qltb (vx v) (min_x bb)); [exists v | exists a]; auto.
    + destruct (Qgtb (vx v) (max_x bb)); [exists v | exists b]; auto.
    + destruct (Qltb (vy v) (min_y bb)); [exists v | exists c]; auto.
    + destruct (Qgtb (vy v) (max_y bb)); [exists v | exists d]; auto.
Qed.

Lemma fold_expand_attained (l : list (Vertex Q)) :
  forall (P : Vertex Q -> Prop) (bb : Bbox),
    l <> [] -> empty bb = true \/ attained P bb ->
    attained (fun u => P u \/ In u l) (fold_left expand l bb).
Proof.
  induction l as [|v l IH]; intros P bb Hne Hbb; [contradiction|].
  cbn [fold_left]. pose proof (expand_attained P bb v Hbb) as Hstep.
  destruct l as [|v' l].
  - cbn [fold_left]. revert Hstep. apply attained_weaken.
    intros u [Hu | ->]; [left; exact Hu | right; left; reflexivity].
  - eapply attained_weaken;
      [|apply (IH (fun u => P u \/ u = v) (expand bb v));
        [discriminate | right; exact Hstep]].
    cbv beta. intros u [[Hu | ->] | Hu].
    + left. exact Hu.
    + right. left. reflexivity.
    + right. right. exact Hu.
Qed.

(** X13: the box of a list of vertices that is not empty is the smallest
    box around them: every vertex lies in it, and each of its four bounds
    is the coordinate of one of the vertices. *)
Theorem box_of_tight (l : list (Vertex Q)) :
  l <> [] ->
  (forall p, In p l -> in_box (box_of l) p) /\ attained (fun v => In v l) (box_of l).
Proof.
  intros Hne. split.
  - intros p Hp. apply fold_expand_in_box. right. exact Hp.
  - eapply attained_weaken;
      [|apply (fold_expand_attained l (fun _ => False) Bbox_new Hne); left; reflexivity].
    cbv beta. intros v [[] | Hv]. exact Hv.
Qed.

Lemma box_of_tight_witness :
  pts unit_square <> [] /\
  (forall p, In p (pts unit_square) -> in_box (box_of (pts unit_square)) p) /\
  attained (fun v => In v (pts unit_square)) (box_of (pts unit_square)).
Proof.
  assert (H : pts unit_square <> []) by discriminate.
  split; [exact H | apply (box_of_tight (pts unit_square) H)].
Defined.

Lemma box_of_nil : empty (box_of []) = true.
Proof. reflexivity. Qed.

(** One bound after two steps of [expand], in either order. *)
Lemma min_step_comm (m a b : Q) :
  (if Qltb b (if Qltb a m then a else m) then b else if Qltb a m then a else m) ==
  (if Qltb a (if Qltb b m then b else m) then a else if Qltb b m then b else m).
Proof.
  destruct (Qltb_cases a m) as [[-> H1]|[-> H1]],
           (Qltb_cases b m) as [[-> H2]|[-> H2]];
    try destruct (Qltb_cases b a) as [[-> H3]|[-> H3]];
    try destruct (Qltb_cases a b) as [[-> H4]|[-> H4]];
    try destruct (Qltb_cases a m) as [[-> H5]|[-> H5]];
    try destruct (Qltb_cases b m) as [[-> H6]|[-> H6]];
    lra.
Qed.

Lemma max_step_comm (m a b : Q) :
  (if Qgtb b (if Qgtb a m then a else m) then b else if Qgtb a m then a else m) ==
  (if Qgtb a (if Qgtb b m then b else m) then a else if Qgtb b m then b else m).
Proof.
  unfold Qgtb.
  destruct (Qltb_cases m a) as [[-> H1]|[-> H1]],
           (Qltb_cases m b) as [[-> H2]|[-> H2]];
    try destruct (Qltb_cases a b) as [[-> H3]|[-> H3]];
    try destruct (Qltb_cases b a) as [[-> H4]|[-> H4]];
    try destruct (Qltb_cases m a) as [[-> H5]|[-> H5]];
    try destruct (Qltb_cases m b) as [[-> H6]|[-> H6]];
    lra.
Qed.

Lemma min_first_comm (a b : Q) :
  (if Qltb b a then b else a) == (if Qltb a b then a else b).
Proof.
  destruct (Qltb_cases b a) as [[-> H1]|[-> H1]],
           (Qltb_cases a b) as [[-> H2]|[-> H2]]; lra.
Qed.

Lemma max_first_comm (a b : Q) :
  (if Qgtb b a then b else a) == (if Qgtb a b then a else b).
Proof.
  unfold Qgtb.
  destruct (Qltb_cases a b) as [[-> H1]|[-> H1]],
           (Qltb_cases b a) as [[-> H2]|[-> H2]]; lra.
Qed.

(** X14: the order in which two vertices are added to a box does not
    matter: the two boxes have the same flag and equal bounds. *)
Theorem expand_comm (bb : Bbox) (a b : Vertex Q) :
  box_eq (expand (expand bb a) b) (expand (expand bb b) a).
Proof.
  unfold box_eq, expand. destruct (empty bb); cbn [empty min_x max_x min_y max_y].
  - split; [reflexivity|].
    split; [apply min_first_comm|]. split; [apply max_first_comm|].
    split; [apply min_first_comm | apply max_first_comm].
  - split; [reflexivity|].
    split; [apply min_step_comm|]. split; [apply max_step_comm|].
    split; [apply min_step_comm | apply max_step_comm].
Qed.

Lemma is_disjoint_sound_aux (bb1 bb2 : Bbox) :
  is_disjoint bb1 bb2 = is_disjoint bb2 bb1 /\
  (is_disjoint bb1 bb2 = true -> forall p, in_box bb1 p -> in_box bb2 p -> False).
Proof.
  split.
  - unfold is_disjoint.
    destruct (empty bb1), (empty bb2), (Qgtb (min_x bb1) (max_x bb2)),
             (Qgtb (min_y bb1) (max_y bb2)), (Qgtb (min_x bb2) (max_x bb1)),
             (Qgtb (min_y bb2) (max_y bb1)); reflexivity.
  - intros Hd p (He1 & Hx1 & Hx1' & Hy1 & Hy1') (He2 & Hx2 & Hx2' & Hy2 & Hy2').
    unfold is_disjoint in Hd. rewrite He1, He2 in Hd. cbn [orb] in Hd.
    rewrite !orb_true_iff, !Qgtb_iff in Hd.
    destruct Hd as [[[Hd|Hd]|Hd]|Hd]; apply Hd; lra.
Qed.

(** X15: [is_disjoint] is symmetric, and two boxes it reports disjoint
    have no point in common. *)
Theorem is_disjoint_sound (bb1 bb2 : Bbox) :
  is_disjoint bb1 bb2 = is_disjoint bb2 bb1 /\
  (is_disjoint bb1 bb2 = true -> forall p, in_box bb1 p -> in_box bb2 p -> False).
Proof. apply is_disjoint_sound_aux. Qed.

Lemma box_ok_expand (bb : Bbox) (v : Vertex Q) : box_ok bb -> box_ok (expand bb v).
Proof.
  unfold box_ok, expand, Qgtb. intros Hok _. destruct (empty bb).
  - cbn [min_x max_x min_y max_y]. split; apply Qle_refl.
  - destruct (Hok eq_refl) as [Hx Hy]. cbn [min_x max_x min_y max_y].
    destruct (Qltb_cases (vx v) (min_x bb)) as [[-> H1]|[-> H1]],
             (Qltb_cases (max_x bb) (vx v)) as [[-> H2]|[-> H2]],
             (Qltb_cases (vy v) (min_y bb)) as [[-> H3]|[-> H3]],
             (Qltb_cases (max_y bb) (vy v)) as [[-> H4]|[-> H4]];
      split; lra.
Qed.

Lemma box_ok_fold (l : list (Vertex Q)) (bb : Bbox) :
  box_ok bb -> box_ok (fold_left expand l bb).
Proof.
  revert bb. induction l as [|v l IH]; intros bb Hok; [exact Hok|].
  cbn [fold_left]. apply IH, box_ok_expand, Hok.
Qed.

Lemma box_ok_box_of (l : list (Vertex Q)) : box_ok (box_of l).
Proof. apply box_ok_fold. intros H. discriminate H. Qed.

(** Two boxes in order that are not reported disjoint share a point. *)
Lemma not_disjoint_common_point (bb1 bb2 : Bbox) :
  box_ok bb1 -> box_ok bb2 -> is_disjoint bb1 bb2 = false ->
  exists p, in_box bb1 p /\ in_box bb2 p.
Proof.
  intros Hok1 Hok2 Hd. unfold is_disjoint in Hd.
  rewrite !orb_false_iff in Hd.
  destruct Hd as [[[[[He1 He2] Hd1] Hd2] Hd3] Hd4].
  destruct (Hok1 He1) as [Hx1 Hy1]. destruct (Hok2 He2) as [Hx2 Hy2].
  unfold Qgtb in Hd1, Hd2, Hd3, Hd4.
  destruct (Qltb_cases (max_x bb2) (min_x bb1)) as [[E _]|[_ H1]]; [congruence|].
  destruct (Qltb_cases (max_y bb2) (min_y bb1)) as [[E _]|[_ H2]]; [congruence|].
  destruct (Qltb_cases (max_x bb1) (min_x bb2)) as [[E _]|[_ H3]]; [congruence|].
  destruct (Qltb_cases (max_y bb1) (min_y bb2)) as [[E _]|[_ H4]]; [congruence|].
  exists (mkVertex (if Qltb (min_x bb1) (min_x bb2) then min_x bb2 else min_x bb1)
                   (if Qltb (min_y bb1) (min_y bb2) then min_y bb2 else min_y bb1)).
  unfold in_box. cbn [vx vy]. rewrite He1, He2.
  destruct (Qltb_cases (min_x bb1) (min_x bb2)) as [[-> Hx]|[-> Hx]],
           (Qltb_cases (min_y bb1) (min_y bb2)) as [[-> Hy]|[-> Hy]];
    repeat split; lra.
Qed.

(** X16: for boxes built by [expand] the test is exact: two such boxes are
    reported disjoint exactly when no point lies in both. *)
Theorem is_disjoint_exact (l1 l2 : list (Vertex Q)) :
  is_disjoint (box_of l1) (box_of l2) = true <->
  ~ exists p, in_box (box_of l1) p /\ in_box (box_of l2) p.
Proof.
  split.
  - intros Hd (p & H1 & H2).
    exact (proj2 (is_disjoint_sound_aux (box_of l1) (box_of l2)) Hd p H1 H2).
  - intros Hno. destruct (is_disjoint (box_of l1) (box_of l2)) eqn:Hd; [reflexivity|].
    exfalso. apply Hno.
    apply not_disjoint_common_point; [apply box_ok_box_of | apply box_ok_box_of | exact Hd].
Qed.

(** ** More about rings *)

(** X17: [reverse] changes the order of the points and nothing else: the
    flags and the vertices are kept, [copyMetadata] cannot tell the two
    rings apart, and reversing twice restores the ring. *)
Theorem reverse_involutive (r : Ring) :
  reverse (reverse r) = r /\
  copyMetadata (reverse r) = copyMetadata r /\
  length (pts (reverse r)) = length (pts r) /\
  forall p, In p (pts (reverse r)) <-> In p (pts r).
Proof.
  destruct r as [l hole parent]. unfold reverse, copyMetadata. cbn [pts is_hole parent_id].
  split; [rewrite rev_involutive; reflexivity|]. split; [reflexivity|].
  split; [apply length_rev|]. intros p. symmetry. apply in_rev.
Qed.

(** ** The readers of mask.cc on the seed example *)

Lemma seed_band_1_in_range : band_in_range seed_dataset 1.
Proof. unfold band_in_range, GDALGetRasterCount, seed_dataset. cbn [bands length]. lia. Defined.

Lemma seed_band_1_bytes :
  byte_samples (XSize seed_dataset) (YSize seed_dataset)
               (sample_8bit (GDALGetRasterBand seed_dataset 1)).
Proof.
  intros x y Hx Hy. change (XSize seed_dataset) with 2 in Hx.
  change (YSize seed_dataset) with 2 in Hy.
  assert (Hx' : x = 0 \/ x = 1) by lia. assert (Hy' : y = 0 \/ y = 1) by lia.
  destruct Hx' as [-> | ->], Hy' as [-> | ->]; vm_compute;
    (split; [intros H; discriminate H | reflexivity]).
Defined.

Lemma read_dataset_8bit_copies_witness :
  exists out usage',
    read_dataset_8bit seed_dataset 1 (repeat 7 256%nat) = Returns (out, usage') /\
    length out = Z.to_nat (XSize seed_dataset * YSize seed_dataset) /\
    forall x y, 0 <= x < XSize seed_dataset -> 0 <= y < YSize seed_dataset ->
      nth (Z.to_nat (XSize seed_dataset * y + x)) out 0 =
      sample_8bit (GDALGetRasterBand seed_dataset 1) x y.
Proof.
  apply (read_dataset_8bit_copies seed_dataset 1 (repeat 7 256%nat)).
  - exact seed_band_1_in_range.
  - reflexivity.
  - reflexivity.
  - reflexivity.
  - exact seed_band_1_bytes.
Defined.

Lemma read_dataset_8bit_usage_witness :
  exists out usage',
    read_dataset_8bit seed_dataset 1 (repeat 7 256%nat) = Returns (out, usage') /\
    length usage' = 256%nat /\
    forall v, 0 <= v < 256 ->
      (nth (Z.to_nat v) usage' 0 = 0 \/ nth (Z.to_nat v) usage' 0 = 1) /\
      (nth (Z.to_nat v) usage' 0 = 1 <->
       exists x y, 0 <= x < XSize seed_dataset /\ 0 <= y < YSize seed_dataset /\
                   sample_8bit (GDALGetRasterBand seed_dataset 1) x y = v).
Proof.
  apply (read_dataset_8bit_usage seed_dataset 1 (repeat 7 256%nat)).
  - exact seed_band_1_in_range.
  - reflexivity.
  - reflexivity.
  - reflexivity.
  - exact seed_band_1_bytes.
Defined.

Lemma read_then_mask_witness :
  exists out usage',
    read_dataset_8bit seed_dataset 1 (repeat 7 256%nat) = Returns (out, usage') /\
    forall wanted x y, 0 <= x < XSize seed_dataset -> 0 <= y < YSize seed_dataset ->
      get (get_bitgrid_for_8bit_raster (XSize seed_dataset) (YSize seed_dataset) out wanted) x y =
      (sample_8bit (GDALGetRasterBand seed_dataset 1) x y =? wanted) /\
      (0 <= wanted < 256 -> nth (Z.to_nat wanted) usage' 0 = 0 ->
       get (get_bitgrid_for_8bit_raster (XSize seed_dataset) (YSize seed_dataset) out wanted) x y
       = false).
Proof.
  apply (read_then_mask seed_dataset 1 (repeat 7 256%nat)).
  - exact seed_band_1_in_range.
  - reflexivity.
  - reflexivity.
  - reflexivity.
  - exact seed_band_1_bytes.
Defined.

(** ** The mask of a band list on the seed example *)

Lemma seed_bands_1_2_in_range : Forall (band_in_range seed_dataset) [1; 2].
Proof.
  constructor; [unfold band_in_range, GDALGetRasterCount, seed_dataset; cbn [bands length]; lia|].
  constructor; [unfold band_in_range, GDALGetRasterCount, seed_dataset; cbn [bands length]; lia|].
  constructor.
Defined.

Lemma get_bitgrid_for_dataset_union_witness :
  exists mask,
    get_bitgrid_for_dataset seed_dataset [1; 2] (ndv_is 5 false) = Returns mask /\
    w mask = XSize seed_dataset /\ h mask = YSize seed_dataset /\
    forall x y, in_grid mask x y = true ->
      (get mask x y = true <->
       exists (i : nat) band_idx, [1; 2] !! i = Some band_idx /\
         pixel_is_ndv (ndv_is 5 false) (Z.of_nat i)
                      (GDALGetRasterBand seed_dataset band_idx) x y = false).
Proof.
  apply (get_bitgrid_for_dataset_union seed_dataset (ndv_is 5 false) [1; 2]).
  - exact seed_blocks_positive.
  - exact seed_bands_1_2_in_range.
  - reflexivity.
Defined.

Lemma get_bitgrid_for_dataset_intersection_witness :
  exists mask,
    get_bitgrid_for_dataset seed_dataset [1; 2] (ndv_is 5 true) = Returns mask /\
    w mask = XSize seed_dataset /\ h mask = YSize seed_dataset /\
    forall x y, in_grid mask x y = true ->
      (get mask x y = true <->
       forall (i : nat) band_idx, [1; 2] !! i = Some band_idx ->
         pixel_is_ndv (ndv_is 5 true) (Z.of_nat i)
                      (GDALGetRasterBand seed_dataset band_idx) x y = false).
Proof.
  apply (get_bitgrid_for_dataset_intersection seed_dataset (ndv_is 5 true) [1; 2]).
  - exact seed_blocks_positive.
  - exact seed_bands_1_2_in_range.
  - reflexivity.
  - discriminate.
Defined.

Lemma seed_one_block_positive : blocks_positive seed_dataset_one_block.
Proof.
  intros band Hin. cbn in Hin.
  destruct Hin as [<- | [<- | []]]; cbn; lia.
Defined.

Lemma seed_same_raster : same_raster seed_dataset seed_dataset_one_block.
Proof.
  split; [reflexivity|]. split; [reflexivity|].
  constructor; [repeat split; reflexivity|].
  constructor; [repeat split; reflexivity|].
  constructor.
Defined.

Lemma get_bitgrid_for_dataset_tiling_witness :
  exists m1 m2,
    get_bitgrid_for_dataset seed_dataset [1; 2] (ndv_is 5 false) = Returns m1 /\
    get_bitgrid_for_dataset seed_dataset_one_block [1; 2] (ndv_is 5 false) = Returns m2 /\
    forall x y, get m1 x y = get m2 x y.
Proof.
  apply (get_bitgrid_for_dataset_tiling seed_dataset seed_dataset_one_block
           (ndv_is 5 false) [1; 2]).
  - exact seed_same_raster.
  - exact seed_blocks_positive.
  - exact seed_one_block_positive.
  - exact seed_bands_1_2_in_range.
Defined.

Lemma get_bitgrid_for_dataset_outcome_witness :
  (Forall (band_in_range seed_dataset) [1; 3] /\
   exists mask, get_bitgrid_for_dataset seed_dataset [1; 3] (ndv_is 5 false) = Returns mask /\
                w mask = XSize seed_dataset /\ h mask = YSize seed_dataset) \/
  (~ Forall (band_in_range seed_dataset) [1; 3] /\
   get_bitgrid_for_dataset seed_dataset [1; 3] (ndv_is 5 false)
   = FatalError "bandid out of range").
Proof.
  apply (get_bitgrid_for_dataset_outcome seed_dataset (ndv_is 5 false) [1; 3]).
  exact seed_blocks_positive.
Defined.

(** ** The centroid as a mean *)

Lemma fold_left_pixels_row {A : Type} (step : A -> Z * Z -> A) (j : nat) (l : list nat) (a : A) :
  fold_left step (map (fun i => (Z.of_nat i, Z.of_nat j)) l) a =
  fold_left (fun s i => step s (Z.of_nat i, Z.of_nat j)) l a.
Proof.
  revert a. induction l as [|i l IH]; intros a; [reflexivity|].
  cbn [map fold_left]. apply IH.
Qed.

(** Two nested loops over the grid visit the pixels row after row. *)
Lemma fold_left_pixels {A : Type} (step : A -> Z * Z -> A) (cols rows : list nat) (a : A) :
  fold_left (fun s j => fold_left (fun s i => step s (Z.of_nat i, Z.of_nat j)) cols s) rows a =
  fold_left step (flat_map (fun j => map (fun i => (Z.of_nat i, Z.of_nat j)) cols) rows) a.
Proof.
  revert a. induction rows as [|j rows IH]; intros a; [reflexivity|].
  cbn [flat_map fold_left]. rewrite fold_left_app, fold_left_pixels_row. apply IH.
Qed.

(** The accumulators of [centroid] after a list of pixels. *)
Lemma accumulate_pixels (g : BitGrid) (l : list (Z * Z)) (a : Accum) :
  fold_left (fun a p =>
               if get g (fst p) (snd p)
               then mkAccum (accum_x a + fst p) (accum_y a + snd p) (cnt a + 1)
               else a) l a =
  let s := List.filter (fun p => get g (fst p) (snd p)) l in
  mkAccum (accum_x a + sum_list (map fst s)) (accum_y a + sum_list (map snd s))
          (cnt a + Z.of_nat (length s)).
Proof.
  cbv zeta. unfold sum_list. revert a. induction l as [|p l IH]; intros a.
  - cbn. destruct a. cbn. f_equal; lia.
  - cbn [fold_left List.filter]. rewrite IH. destruct (get g (fst p) (snd p)).
    + cbn [map fold_right length accum_x accum_y cnt].
      rewrite Nat2Z.inj_succ. f_equal; lia.
    + reflexivity.
Qed.

Lemma NoDup_grid_row (j : nat) (cols : list nat) :
  List.NoDup cols -> List.NoDup (map (fun i => (Z.of_nat i, Z.of_nat j)) cols).
Proof.
  intros H. induction H as [|i cols Hi Hc IH]; [constructor|].
  cbn [map]. constructor; [|exact IH].
  intros Hin. apply in_map_iff in Hin. destruct Hin as (i' & E & Hi').
  inversion E. apply Nat2Z.inj in H0. subst i'. apply Hi, Hi'.
Qed.

Lemma NoDup_grid_rows (cols rows : list nat) :
  List.NoDup cols -> List.NoDup rows ->
  List.NoDup (flat_map (fun j => map (fun i => (Z.of_nat i, Z.of_nat j)) cols) rows).
Proof.
  intros Hc Hr. induction Hr as [|j rows Hj Hr IH]; [constructor|].
  cbn [flat_map]. apply List.NoDup_app; [apply NoDup_grid_row; exact Hc | exact IH |].
  intros p Hp Hp'. apply in_map_iff in Hp. destruct Hp as (i & <- & _).
  apply in_flat_map in Hp'. destruct Hp' as (j' & Hj' & Hp').
  apply in_map_iff in Hp'. destruct Hp' as (i' & E & _).
  inversion E. apply Nat2Z.inj in H1. subst j'. apply Hj, Hj'.
Qed.

Lemma In_grid_pixels (g : BitGrid) (x y : Z) :
  In (x, y) (grid_pixels g) <-> in_grid g x y = true.
Proof.
  unfold grid_pixels. rewrite in_flat_map, in_grid_iff. split.
  - intros (j & Hj & Hin). apply in_map_iff in Hin. destruct Hin as (i & E & Hi).
    inversion E; subst. apply in_seq in Hj, Hi. lia.
  - intros [Hx Hy]. exists (Z.to_nat y). split; [apply in_seq; lia|].
    apply in_map_iff. exists (Z.to_nat x). split; [f_equal; lia | apply in_seq; lia].
Qed.

(** X20: [centroid] is the mean of the set pixels: each pixel that is set
    counts once, and the two coordinates returned are the sum of the x and
    the sum of the y of the set pixels, each converted to double and
    divided by their number. *)
Theorem centroid_mean (g : BitGrid) :
  List.NoDup (set_pixels g) /\
  (forall x y, In (x, y) (set_pixels g) <-> get g x y = true) /\
  centroid g =
  mkVertex (PrimFloat.div (double_of_int64 (sum_list (map fst (set_pixels g))))
                          (double_of_int64 (Z.of_nat (length (set_pixels g)))))
           (PrimFloat.div (double_of_int64 (sum_list (map snd (set_pixels g))))
                          (double_of_int64 (Z.of_nat (length (set_pixels g))))).
Proof.
  split; [|split].
  - apply List.NoDup_filter, NoDup_grid_rows; apply List.seq_NoDup.
  - intros x y. unfold set_pixels. rewrite filter_In, In_grid_pixels. cbn [fst snd].
    split; [intros [_ H]; exact H|]. intros H. split; [|exact H].
    destruct (in_grid g x y) eqn:Hin; [reflexivity|].
    rewrite (get_outside g x y Hin) in H. discriminate H.
  - unfold centroid.
    assert (E : for_int (h g) (fun a y =>
                  for_int (w g) (fun a x =>
                    if get g x y
                    then mkAccum (accum_x a + x) (accum_y a + y) (cnt a + 1)
                    else a) a) (mkAccum 0 0 0) =
                mkAccum (sum_list (map fst (set_pixels g)))
                        (sum_list (map snd (set_pixels g)))
                        (Z.of_nat (length (set_pixels g)))).
    { unfold for_int.
      rewrite (fold_left_pixels
                 (fun a p => if get g (fst p) (snd p)
                             then mkAccum (accum_x a + fst p) (accum_y a + snd p) (cnt a + 1)
                             else a)).
      rewrite accumulate_pixels. reflexivity. }
    rewrite E. reflexivity.
Qed.

